(** * PRTG-Monitor: status detection and debounced alerting

    A shallow embedding of [prtg_monitor.py] and [email_sender.py], and the
    properties of the natural-language specification checked against it.

    Conventions of the embedding.
    - A Python [str] that the program inspects character by character (the
      text of a page element, a CSS colour value) is a [string] whose
      characters are the code points of the text; the embedding covers the
      code points below U+0100, one [ascii] per code point.  Message
      literals of the source are kept as the bytes of the source file.
    - A Python [int] is a [Z].
    - A call that can raise returns an [option]: [None] is the exception.
    - [Dict[int, str]] is a [gmap Z string]. *)

From Stdlib Require Import ZArith NArith String Ascii List Lia Bool.
From Stdlib Require DecimalString HexadecimalString.
From stdpp Require Import gmap strings list.
Import ListNotations.

Open Scope string_scope.
Open Scope Z_scope.

(** ** Python text primitives used by the monitor *)

Module PyText.

Definition code (c : ascii) : N := N_of_ascii c.

Definition in_range (lo hi : N) (c : ascii) : bool :=
  ((lo <=? code c) && (code c <=? hi))%N.

(** Unicode decimal digits (category Nd) below U+0100: ['0'..'9']. *)
Definition is_decimal (c : ascii) : bool := in_range 48 57 c.

(** Characters accepted by [str.isdigit]: the decimal digits and the
    characters of numeric type Digit, which below U+0100 are the
    superscripts U+00B2, U+00B3 and U+00B9. *)
Definition char_isdigit (c : ascii) : bool :=
  is_decimal c || (code c =? 178)%N || (code c =? 179)%N || (code c =? 185)%N.

(** Characters accepted by [str.isspace], which [str.strip()] removes and
    the pattern [\s] matches. *)
Definition char_isspace (c : ascii) : bool :=
  in_range 9 13 c || in_range 28 32 c || (code c =? 133)%N || (code c =? 160)%N.

Definition char_lower (c : ascii) : ascii :=
  if in_range 65 90 c || (in_range 192 222 c && negb (code c =? 215)%N)
  then ascii_of_N (code c + 32)
  else c.

Fixpoint all_chars (p : ascii -> bool) (s : string) : bool :=
  match s with
  | EmptyString => true
  | String c r => p c && all_chars p r
  end.

(** [s.isdigit()]: at least one character, and all of them digits. *)
Definition isdigit (s : string) : bool :=
  match s with
  | EmptyString => false
  | String _ _ => all_chars char_isdigit s
  end.

Fixpoint lower (s : string) : string :=
  match s with
  | EmptyString => EmptyString
  | String c r => String (char_lower c) (lower r)
  end.

Fixpoint drop_while (p : ascii -> bool) (s : string) : string :=
  match s with
  | EmptyString => EmptyString
  | String c r => if p c then drop_while p r else s
  end.

Fixpoint take_while (p : ascii -> bool) (s : string) : string :=
  match s with
  | EmptyString => EmptyString
  | String c r => if p c then String c (take_while p r) else EmptyString
  end.

Fixpoint rev_onto (s acc : string) : string :=
  match s with
  | EmptyString => acc
  | String c r => rev_onto r (String c acc)
  end.

Definition reverse (s : string) : string := rev_onto s EmptyString.

(** [s.strip()] *)
Definition strip (s : string) : string :=
  reverse (drop_while char_isspace (reverse (drop_while char_isspace s))).

(** [s.startswith(p)] *)
Definition startswith (s p : string) : bool := String.prefix p s.

Fixpoint drop (n : nat) (s : string) : string :=
  match n, s with
  | O, _ => s
  | S k, String _ r => drop k r
  | S _, EmptyString => EmptyString
  end.

(** [needle in s] *)
Fixpoint contains (needle s : string) : bool :=
  String.prefix needle s ||
  match s with
  | EmptyString => false
  | String _ r => contains needle r
  end.

(** The value of a run of decimal digits, most significant first. *)
Fixpoint decimal_value (acc : Z) (s : string) : Z :=
  match s with
  | EmptyString => acc
  | String c r => decimal_value (10 * acc + (Z.of_N (code c) - 48)) r
  end.

Section Int.
(** [sys.get_int_max_str_digits()]: 0 switches the guard off (and is what
    interpreters without the guard behave like); CPython's default is
    4300. *)
Variable int_max_str_digits : N.

(** [int(s)] for a text without sign, blanks or underscores, the only
    texts the monitor converts (they passed [isdigit], or matched
    [\d+]).  A character that is a digit but not a decimal digit raises
    [ValueError], and so does a text longer than the interpreter's
    limit. *)
Definition int (s : string) : option Z :=
  match s with
  | EmptyString => None
  | String _ _ =>
      if all_chars is_decimal s then
        let digits := N.of_nat (String.length s) in
        if ((640 <? digits) && (0 <? int_max_str_digits)
            && (int_max_str_digits <? digits))%N
        then None
        else Some (decimal_value 0 s)
      else None
  end.
End Int.

(** [str(n)] and the [{n}] field of an f-string. *)
Definition str_of_int (n : Z) : string :=
  DecimalString.NilZero.string_of_int (Z.to_int n).

Definition hex (n : N) : string :=
  HexadecimalString.NilZero.string_of_uint (N.to_hex_uint n).

(** The [{n:02x}] field of an f-string: lowercase hexadecimal, padded with
    zeros to a width of at least two, the sign included in the width. *)
Definition format_02x (n : Z) : string :=
  if n <? 0 then "-" ++ hex (Z.to_N (- n))
  else
    let h := hex (Z.to_N n) in
    if (String.length h <? 2)%nat then "0" ++ h else h.

Fixpoint take_chars (n : nat) (s : string) : string :=
  match n, s with
  | O, _ => EmptyString
  | S k, String c r => String c (take_chars k r)
  | S _, EmptyString => EmptyString
  end.

(** [s.lstrip(c)] for a single character [c]. *)
Definition lstrip_char (c : ascii) (s : string) : string :=
  drop_while (Ascii.eqb c) s.

(** [s[i:i+2]]: shorter, or empty, when [s] ends before. *)
Definition slice2 (s : string) (i : nat) : string := take_chars 2 (drop i s).

Definition hex_digit_value (c : ascii) : option Z :=
  if in_range 48 57 c then Some (Z.of_N (code c) - 48)
  else if in_range 97 102 c then Some (Z.of_N (code c) - 87)
  else if in_range 65 70 c then Some (Z.of_N (code c) - 55)
  else None.

(** The blanks [int] skips around a number: fewer than [str.isspace]
    accepts, U+001C to U+001F are not among them. *)
Definition int_isspace (c : ascii) : bool :=
  in_range 9 13 c || (code c =? 32)%N || (code c =? 133)%N || (code c =? 160)%N.

(** [int(s, 16)] for a text of at most two characters, which is all
    [_hex_to_rgb] converts: two hexadecimal digits, or one digit with a
    blank or a sign before it or a blank after it.  The empty text and
    everything else raise [ValueError] (no text of two characters is long
    enough for a [0x] prefix or an underscore to be legal). *)
Definition int16 (s : string) : option Z :=
  match s with
  | String a EmptyString => hex_digit_value a
  | String a (String b EmptyString) =>
      match hex_digit_value a, hex_digit_value b with
      | Some x, Some y => Some (16 * x + y)
      | Some x, None => if int_isspace b then Some x else None
      | None, Some y =>
          if int_isspace a || Ascii.eqb a "+" then Some y
          else if Ascii.eqb a "-" then Some (- y)
          else None
      | None, None => None
      end
  | _ => None
  end.

End PyText.

(** ** The browser, as far as the monitor drives it *)

Module Selenium.

(** A page element.  Reading [el.text] asks the browser, and raises when
    the element is gone. *)
Record WebElement := { text : option string }.

(** A loaded page answers [find_elements(By.CSS_SELECTOR, css)] with the
    matching elements, or the call raises. *)
Record Page := { matches : string -> option (list WebElement) }.

Definition blank : Page := {| matches := fun _ => Some [] |}.

Inductive Call :=
| Get (url : string)
| FindElements (css : string).

(** The driver: what the network serves ([web n url] is the answer to the
    [n]-th [get], [None] when it raises), what the login form leads to
    ([sign_in user password] is the address the browser shows after the
    form is submitted, [None] when a step of filling it in raises), and
    the calls made so far. *)
Record WebDriver := {
  web : nat -> string -> option Page;
  sign_in : string -> string -> option string;
  quits : bool;
  visits : nat;
  page : Page;
  calls : list Call
}.

Definition start (w : nat -> string -> option Page)
    (form : string -> string -> option string) (q : bool) : WebDriver :=
  {| web := w; sign_in := form; quits := q;
     visits := 0; page := blank; calls := [] |}.

(** [driver.get(url)]: [true] when the page loaded. *)
Definition get (url : string) (d : WebDriver) : bool * WebDriver :=
  let served := web d (visits d) url in
  (match served with Some _ => true | None => false end,
   {| web := web d; sign_in := sign_in d; quits := quits d;
      visits := S (visits d);
      page := match served with Some p => p | None => page d end;
      calls := calls d ++ [Get url] |}).

(** [driver.find_elements(By.CSS_SELECTOR, css)] *)
Definition find_elements (css : string) (d : WebDriver)
  : option (list WebElement) * WebDriver :=
  (matches (page d) css,
   {| web := web d; sign_in := sign_in d; quits := quits d;
      visits := visits d; page := page d;
      calls := calls d ++ [FindElements css] |}).

End Selenium.

(** ** email_sender.py *)

Module Email.

Inductive Outcome := Skipped | Sent | Failed.

(** One call of [send_alert], with what became of it. *)
Record Alert := {
  server_name : string;
  alert_url : string;
  status : string;
  outcome : Outcome
}.

(** [smtp n] tells whether the [n]-th attempt to build and send a message
    goes through; when it does not, something inside the [try] raised. *)
Record EmailSender := {
  enabled : bool;
  smtp : nat -> bool;
  attempts : nat;
  alerts : list Alert
}.

(** [bool(self.smtp_config.get('server'))] *)
Definition truthy (v : option string) : bool :=
  match v with
  | None => false
  | Some EmptyString => false
  | Some (String _ _) => true
  end.

Definition init (smtp_server : option string) (line : nat -> bool) : EmailSender :=
  {| enabled := truthy smtp_server; smtp := line; attempts := 0; alerts := [] |}.

Definition send_alert (es : EmailSender) (name url st : string)
  : bool * EmailSender :=
  if negb (enabled es) then
    (false,
     {| enabled := enabled es; smtp := smtp es; attempts := attempts es;
        alerts := alerts es ++
          [{| server_name := name; alert_url := url; status := st;
              outcome := Skipped |}] |})
  else
    let ok := smtp es (attempts es) in
    (ok,
     {| enabled := enabled es; smtp := smtp es; attempts := S (attempts es);
        alerts := alerts es ++
          [{| server_name := name; alert_url := url; status := st;
              outcome := if ok then Sent else Failed |}] |}).

(** [send_test_email], for a configuration with the given [smtp.server]. *)
Definition send_test_email (smtp_server : option string) (line : nat -> bool)
  : bool * EmailSender :=
  let sender := init smtp_server line in
  if negb (enabled sender) then (false, sender)
  else send_alert sender "測試伺服器" "https://example.com/test" "測試".

End Email.

(** ** prtg_monitor.py *)

Module Prtg.
Import PyText Selenium Email.

(** An entry of [config['servers']]. *)
Record Server := { name : string; map_id : Z }.

Record Config := {
  base_url : string;
  username : string;
  password : string;
  servers : list Server;
  check_interval_seconds : Z;
  normal_color : string;
  error_color : string;
  smtp_server : option string
}.

(** An entry of the dictionary [check_all_servers] returns (its
    [timestamp], the wall clock, is left out). *)
Record Result := {
  result_map_id : Z;
  result_map_url : string;
  color : string;
  is_error : bool
}.

Record PRTGMonitor := {
  config : Config;
  driver : option WebDriver;
  email_sender : EmailSender;
  last_status : gmap Z string;
  monitor_normal_color : string;
  monitor_error_color : string
}.

Definition with_driver (m : PRTGMonitor) (d : option WebDriver) : PRTGMonitor :=
  {| config := config m; driver := d; email_sender := email_sender m;
     last_status := last_status m;
     monitor_normal_color := monitor_normal_color m;
     monitor_error_color := monitor_error_color m |}.

Definition with_email_sender (m : PRTGMonitor) (es : EmailSender) : PRTGMonitor :=
  {| config := config m; driver := driver m; email_sender := es;
     last_status := last_status m;
     monitor_normal_color := monitor_normal_color m;
     monitor_error_color := monitor_error_color m |}.

Definition with_last_status (m : PRTGMonitor) (st : gmap Z string) : PRTGMonitor :=
  {| config := config m; driver := driver m; email_sender := email_sender m;
     last_status := st;
     monitor_normal_color := monitor_normal_color m;
     monitor_error_color := monitor_error_color m |}.

(** [PRTGMonitor.__init__], once the configuration file is read. *)
Definition init (cfg : Config) (line : nat -> bool) : PRTGMonitor :=
  {| config := cfg; driver := None;
     email_sender := Email.init (smtp_server cfg) line;
     last_status := ∅;
     monitor_normal_color := lower (normal_color cfg);
     monitor_error_color := lower (error_color cfg) |}.

(** *** The pattern of [_parse_color]

    [re.match(r'rgba?\s*\(\s*(\d+)\s*,\s*(\d+)\s*,\s*(\d+)', s)].  Every
    starred class is followed by a character outside it, so taking the
    longest run is what the matcher ends up with; the optional [a] is
    tried first and given up when the rest fails. *)

Definition literal (p s : string) : option string :=
  if String.prefix p s then Some (drop (String.length p) s) else None.

Definition spaces (s : string) : string := drop_while char_isspace s.

Definition digits (s : string) : option (string * string) :=
  match take_while is_decimal s with
  | EmptyString => None
  | String c r => Some (String c r, drop_while is_decimal s)
  end.

Definition rgb_channels (s : string) : option (string * string * string) :=
  s ← literal "(" (spaces s);
  '(r, s) ← digits (spaces s);
  s ← literal "," (spaces s);
  '(g, s) ← digits (spaces s);
  s ← literal "," (spaces s);
  '(b, _) ← digits (spaces s);
  Some (r, g, b).

Definition rgb_match (s : string) : option (string * string * string) :=
  s ← literal "rgb" s;
  match literal "a" s with
  | Some t =>
      match rgb_channels t with
      | Some groups => Some groups
      | None => rgb_channels s
      end
  | None => rgb_channels s
  end.

(** What a status check found.  [_check_server_status] turns it into its
    pair of a description and the error flag. *)
Inductive Reading :=
| Errors (total_errors : Z)
| Healthy (ok_count warning_count : Z)
| CheckFailed.

Definition describe (r : Reading) : string * bool :=
  match r with
  | Errors total_errors =>
      ("錯誤 (" ++ str_of_int total_errors ++ "個)", true)
  | Healthy ok_count warning_count =>
      ("正常 (" ++ str_of_int ok_count ++ "個"
         ++ (if 0 <? warning_count
             then ", 警告 " ++ str_of_int warning_count ++ "個" else "")
         ++ ")",
       false)
  | CheckFailed => ("檢查失敗", false)
  end.

Definition maponly_url (cfg : Config) (server : Server) : string :=
  base_url cfg ++ "/controls/maponly.htm?id=" ++ str_of_int (map_id server).

Definition mapshow_url (cfg : Config) (server : Server) : string :=
  base_url cfg ++ "/mapshow.htm?id=" ++ str_of_int (map_id server).

Definition login_url (cfg : Config) : string :=
  base_url cfg ++ "/public/login.htm".

(** [_hex_to_rgb]: the three channels, or [None] when a conversion
    raises. *)
Definition _hex_to_rgb (hex_color : string) : option (Z * Z * Z) :=
  let hex_color := lstrip_char "#" hex_color in
  r ← int16 (slice2 hex_color 0);
  g ← int16 (slice2 hex_color 2);
  b ← int16 (slice2 hex_color 4);
  Some (r, g, b).

Section Interpreter.
Variable int_max_str_digits : N.

Definition _parse_color (color_str : string) : option string :=
  let color_str := lower (strip color_str) in
  if startswith color_str "#" then Some color_str
  else
    match rgb_match color_str with
    | Some (r, g, b) =>
        r ← int int_max_str_digits r;
        g ← int int_max_str_digits g;
        b ← int int_max_str_digits b;
        Some ("#" ++ format_02x r ++ format_02x g ++ format_02x b)
    | None => Some color_str
    end.

(** [sum(int(el.text) for el in elements if el.text.isdigit())];
    [None] when reading a text or converting it raises. *)
Fixpoint sum_labels (elements : list WebElement) : option Z :=
  match elements with
  | [] => Some 0
  | el :: rest =>
      t ← text el;
      if isdigit t then
        t ← text el;
        n ← int int_max_str_digits t;
        s ← sum_labels rest;
        Some (n + s)
      else sum_labels rest
  end.

(** The counting block the source repeats for [.sensr], [.sensy] and
    [.sensg]: the sum of the numeric labels, or the number of elements
    when that sum is 0 or could not be computed. *)
Definition count_labels (elements : list WebElement) : Z :=
  let count := Z.of_nat (List.length elements) in
  match sum_labels elements with
  | Some total => if total =? 0 then count else total
  | None => count
  end.

Definition nonempty {A} (l : list A) : bool :=
  match l with [] => false | _ :: _ => true end.

(** The [try] block of [_check_server_status]. *)
Definition read_status (d : WebDriver) (url : string) : Reading * WebDriver :=
  let '(loaded, d) := get url d in
  if negb loaded then (CheckFailed, d)
  else
    let '(sensr_elements, d) := find_elements ".sensr" d in
    match sensr_elements with
    | None => (CheckFailed, d)
    | Some sensr_elements =>
        if nonempty sensr_elements
        then (Errors (count_labels sensr_elements), d)
        else
          let '(sensy_elements, d) := find_elements ".sensy" d in
          match sensy_elements with
          | None => (CheckFailed, d)
          | Some sensy_elements =>
              let warning_count :=
                if nonempty sensy_elements
                then count_labels sensy_elements else 0 in
              let '(sensg_elements, d) := find_elements ".sensg" d in
              match sensg_elements with
              | None => (CheckFailed, d)
              | Some sensg_elements =>
                  let ok_count :=
                    if nonempty sensg_elements
                    then count_labels sensg_elements else 0 in
                  (Healthy ok_count warning_count, d)
              end
          end
    end.

(** Without a browser, [self.driver.get] raises and the check fails. *)
Definition check_reading (m : PRTGMonitor) (server : Server)
  : Reading * PRTGMonitor :=
  match driver m with
  | None => (CheckFailed, m)
  | Some d =>
      let '(r, d) := read_status d (maponly_url (config m) server) in
      (r, with_driver m (Some d))
  end.

Definition _check_server_status (m : PRTGMonitor) (server : Server)
  : (string * bool) * PRTGMonitor :=
  let '(r, m) := check_reading m server in (describe r, m).

(** The body of the loop of [check_all_servers]: one server is checked,
    an alert goes out when it newly shows an error, and its last status
    is recorded under its [map_id]. *)
Definition check_server (acc : gmap string Result * PRTGMonitor)
    (server : Server) : gmap string Result * PRTGMonitor :=
  let '(results, m) := acc in
  let name := name server in
  let map_id := map_id server in
  let map_url := mapshow_url (config m) server in
  let '((color, is_error), m) := _check_server_status m server in
  let results :=
    <[name := {| result_map_id := map_id; result_map_url := map_url;
                 color := color; is_error := is_error |}]> results in
  if is_error then
    if decide (last_status m !! map_id ≠ Some "error") then
      let '(_, es) := send_alert (email_sender m) name map_url "錯誤" in
      (results,
       with_last_status (with_email_sender m es)
         (<[map_id := "error"]> (last_status m)))
    else (results, m)
  else
    (results, with_last_status m (<[map_id := "normal"]> (last_status m))).

Definition check_all_servers (m : PRTGMonitor)
  : gmap string Result * PRTGMonitor :=
  fold_left check_server (servers (config m)) (∅, m).

(** *** Start-up, the two modes and [main] *)

(** What the program finds around it when it starts. *)
Record Environment := {
  files : string -> option (option Config);
  chrome_starts : bool;
  network : nat -> string -> option Page;
  login_form : string -> string -> option string;
  chrome_quits : bool;
  mail : nat -> bool
}.

(** How a method ends: it returns, or an exception leaves it. *)
Inductive Completion :=
| Returns (m : PRTGMonitor)
| Raises (m : PRTGMonitor).

Definition _init_browser (env : Environment) (m : PRTGMonitor)
  : option PRTGMonitor :=
  if chrome_starts env
  then Some (with_driver m
               (Some (start (network env) (login_form env) (chrome_quits env))))
  else None.

(** [_login]: every exception is caught and reported as [False]. *)
Definition _login (m : PRTGMonitor) : bool * PRTGMonitor :=
  match driver m with
  | None => (false, m)
  | Some d =>
      let '(loaded, d) := get (login_url (config m)) d in
      let m := with_driver m (Some d) in
      if negb loaded then (false, m)
      else
        match sign_in d (username (config m)) (password (config m)) with
        | None => (false, m)
        | Some current_url =>
            (negb (contains "login" (lower current_url)), m)
        end
  end.

(** [close]: [driver.quit()] when there is a driver. *)
Definition close (m : PRTGMonitor) : Completion :=
  match driver m with
  | None => Returns m
  | Some d => if quits d then Returns m else Raises m
  end.

(** [test]: the [finally] clause closes the browser on every path. *)
Definition test (env : Environment) (m : PRTGMonitor) : Completion :=
  match _init_browser env m with
  | None =>
      match close m with
      | Returns m => Raises m
      | Raises m => Raises m
      end
  | Some m =>
      let '(logged_in, m) := _login m in
      if negb logged_in then close m
      else
        let '(_, m) := check_all_servers m in
        close m
  end.

Fixpoint cycles (n : nat) (m : PRTGMonitor) : PRTGMonitor :=
  match n with
  | O => m
  | S k => cycles k (snd (check_all_servers m))
  end.

(** [run]: the loop goes on until the operator interrupts it, here during
    the pause that follows cycle [S interrupted_after]; a negative
    interval makes the first pause raise.  Whatever ends the loop is
    caught, and [finally] closes the browser. *)
Definition run (env : Environment) (interrupted_after : nat)
    (m : PRTGMonitor) : Completion :=
  match _init_browser env m with
  | None => close m
  | Some m =>
      let '(logged_in, m) := _login m in
      if negb logged_in then close m
      else
        let interval := check_interval_seconds (config m) in
        close (cycles (if interval <? 0 then 1%nat else S interrupted_after) m)
  end.

Record Args := { config_path : string; test_mode : bool }.

(** [main]: the exit status of the process, and the monitor it leaves.
    [files env path] is [None] when there is no file at [path],
    [Some None] when its content cannot be used as a configuration. *)
Definition main (args : Args) (env : Environment) (interrupted_after : nat)
  : Z * option PRTGMonitor :=
  match files env (config_path args) with
  | None => (1, None)
  | Some None => (1, None)
  | Some (Some cfg) =>
      let monitor := init cfg (mail env) in
      match (if test_mode args then test env monitor
             else run env interrupted_after monitor) with
      | Returns m => (0, Some m)
      | Raises m => (1, Some m)
      end
  end.

End Interpreter.
End Prtg.

(** ** The vocabulary of the specification *)

Module Spec.
Import PyText Selenium Email Prtg.

(** The four severities of a verdict.  The program has no such type: it
    tells an error from the rest by its flag, a failed check by its
    description, and a warning by a positive warning count. *)
Inductive Severity := Normal | Warning | Error | Unknown.

#[global] Instance Severity_eq_dec : EqDecision Severity.
Proof. solve_decision. Defined.

Definition severity (r : Reading) : Severity :=
  match r with
  | Errors _ => Error
  | Healthy _ warning_count => if 0 <? warning_count then Warning else Normal
  | CheckFailed => Unknown
  end.

Section Interpreter.
Variable int_max_str_digits : N.

(** One iteration of the loop of [check_all_servers], as a step on the
    monitor alone. *)
Definition poll (m : PRTGMonitor) (server : Server) : PRTGMonitor :=
  snd (check_server int_max_str_digits (∅, m) server).

(** What the status check of that iteration reads. *)
Definition observed (m : PRTGMonitor) (server : Server) : Reading :=
  fst (check_reading int_max_str_digits m server).

(** The readings of a sequence of iterations, in order. *)
Fixpoint readings (seq : list Server) (m : PRTGMonitor) : list Reading :=
  match seq with
  | [] => []
  | server :: rest => observed m server :: readings rest (poll m server)
  end.

Definition polls (seq : list Server) (m : PRTGMonitor) : PRTGMonitor :=
  fold_left poll seq m.
End Interpreter.

(** The calls of [send_alert] so far. *)
Definition sent (m : PRTGMonitor) : list Alert := alerts (email_sender m).

(** The alert an error on [server] gives rise to; only what became of it
    depends on the mail system. *)
Definition alert_for (m : PRTGMonitor) (server : Server) (o : Outcome) : Alert :=
  {| server_name := name server;
     alert_url := mapshow_url (config m) server;
     status := "錯誤";
     outcome := o |}.

(** What becomes of the next call of [send_alert]. *)
Definition delivery (es : EmailSender) : Outcome :=
  if negb (enabled es) then Skipped
  else if smtp es (attempts es) then Sent else Failed.

(** Numeric-label counting as the specification words it in its testable
    properties: an element bearing numeric text contributes its value, any
    other element contributes 1. *)
Definition spec_contribution (el : WebElement) : Z :=
  match text el with
  | Some t => if isdigit t then decimal_value 0 t else 1
  | None => 1
  end.

Definition spec_count (elements : list WebElement) : Z :=
  fold_right (fun el acc => spec_contribution el + acc) 0 elements.

(** What the program adds up: the value of a numeric label, nothing for
    any other element. *)
Definition label_value (el : WebElement) : Z :=
  match text el with
  | Some t => if isdigit t then decimal_value 0 t else 0
  | None => 0
  end.

Definition label_sum (elements : list WebElement) : Z :=
  fold_right (fun el acc => label_value el + acc) 0 elements.

(** A text the program can read and, when it is numeric, convert. *)
Definition usable (int_max_str_digits : N) (el : WebElement) : bool :=
  match text el with
  | Some t =>
      negb (isdigit t)
      || match int int_max_str_digits t with Some _ => true | None => false end
  | None => false
  end.

(** [s] is empty or starts with a character outside the class [p]. *)
Definition starts_outside (p : ascii → bool) (s : string) : bool :=
  match s with
  | EmptyString => true
  | String c _ => negb (p c)
  end.

Definition is_lower_hex (c : ascii) : bool :=
  in_range 48 57 c || in_range 97 102 c.

(** A colour value from the blanks before its parenthesis on: the three
    channels [r], [g] and [b] with blanks around them, and whatever follows
    the third. *)
Definition channel_text (w1 w2 w3 w4 w5 w6 r g b rest : string) : string :=
  w1 ++ "(" ++ w2 ++ r ++ w3 ++ "," ++ w4 ++ g ++ w5 ++ "," ++ w6 ++ b ++ rest.

(** What an alert says, apart from what became of it. *)
Definition subject (a : Alert) : string * string * string :=
  (server_name a, alert_url a, status a).

End Spec.

(** ** A small installation, for concrete runs *)

Module Demo.
Import PyText Selenium Email Prtg Spec.

Definition el (t : string) : WebElement := {| text := Some t |}.
(** An element that is gone when its text is read. *)
Definition stale : WebElement := {| text := None |}.
(** An element labelled with a superscript two: a digit for [isdigit], not
    a number for [int]. *)
Definition squared : WebElement := {| text := Some (String (ascii_of_N 178) "") |}.

Definition page_of (sensr sensy sensg : list WebElement) : Page :=
  {| matches := fun css =>
       if String.eqb css ".sensr" then Some sensr
       else if String.eqb css ".sensy" then Some sensy
       else if String.eqb css ".sensg" then Some sensg
       else Some [] |}.

Definition red : Page := page_of [el "2"] [el "1"] [el "5"].
Definition yellow : Page := page_of [] [el "1"] [el "5"].
Definition green : Page := page_of [] [] [el "5"].

Definition alpha : Server := {| name := "alpha"; map_id := 2136 |}.
Definition beta : Server := {| name := "beta"; map_id := 2140 |}.
(** A second name for the map of [alpha]. *)
Definition alias : Server := {| name := "alias"; map_id := 2136 |}.

Definition cfg (entities : list Server) (smtp : option string) : Config :=
  {| base_url := "https://prtg.example"; username := "monitor";
     password := "secret"; servers := entities;
     check_interval_seconds := 60;
     normal_color := "#B4CC38"; error_color := "#E30613";
     smtp_server := smtp |}.

(** A network that serves the pages of [script] one visit after the other,
    whatever the address, and fails afterwards. *)
Definition scripted (script : list (option Page)) (n : nat) (_ : string)
  : option Page :=
  match nth_error script n with
  | Some served => served
  | None => None
  end.

Definition landing (_ _ : string) : option string :=
  Some "https://prtg.example/welcome.htm".
Definition rejected (_ _ : string) : option string :=
  Some "https://prtg.example/public/login.htm?errormsg=1".

(** A monitor with its browser open and nothing recorded yet. *)
Definition monitor (entities : list Server) (smtp : option string)
    (line : nat -> bool) (script : list (option Page)) : PRTGMonitor :=
  with_driver (init (cfg entities smtp) line)
    (Some (start (scripted script) landing true)).

(** The same, with [status] already recorded for [alpha]. *)
Definition monitor_after (status : string) (script : list (option Page))
  : PRTGMonitor :=
  with_last_status
    (monitor [alpha] (Some "mail.example") (fun _ => true) script)
    (<[map_id alpha := status]> ∅).

Definition env (login : string -> string -> option string)
    (entities : list Server) (script : list (option Page)) : Environment :=
  {| files := fun path =>
       if String.eqb path "config.json"
       then Some (Some (cfg entities (Some "mail.example"))) else None;
     chrome_starts := true;
     network := scripted script;
     login_form := login;
     chrome_quits := true;
     mail := fun _ => true |}.

Definition args_test : Args := {| config_path := "config.json"; test_mode := true |}.
End Demo.

(** ** What a run leaves behind, for the statements about whole cycles *)

Module Observe.
Import PyText Selenium Email Prtg Spec.

(** The addresses the browser was sent to, in order. *)
Definition gets (cs : list Call) : list string :=
  flat_map (fun c => match c with Get url => [url] | FindElements _ => [] end) cs.

(** The calls one status check can make, in the order it makes them. *)
Definition check_calls (url : string) : list Call :=
  [Get url; FindElements ".sensr"; FindElements ".sensy"; FindElements ".sensg"].

(** The entry an iteration on [server] writes into the result dictionary. *)
Definition result_of (L : N) (m : PRTGMonitor) (server : Server) : Result :=
  {| result_map_id := map_id server;
     result_map_url := mapshow_url (config m) server;
     color := fst (describe (observed L m server));
     is_error := snd (describe (observed L m server)) |}.

(** A store that holds nothing but ['normal'] and ['error']. *)
Definition two_valued (st : gmap Z string) : Prop :=
  ∀ k v, st !! k = Some v → v = "normal" ∨ v = "error".

(** The number of readings that are errors. *)
Definition error_count (rs : list Reading) : nat :=
  List.length (filter (λ r, severity r = Error) rs).

(** [n] number signs in a row. *)
Fixpoint hashes (n : nat) : string :=
  match n with
  | O => EmptyString
  | S k => String "#" (hashes k)
  end.

(** A character that is neither a blank nor changed by [lower]. *)
Definition settled (c : ascii) : bool :=
  negb (char_isspace c) && Ascii.eqb (char_lower c) c.

End Observe.

Import PyText Selenium Email Prtg Spec.

(** Throughout, [L] is the interpreter's limit on the number of digits of
    a text converted by [int] ([sys.get_int_max_str_digits()]); the
    properties hold for every value of it. *)

(** ** The status check changes the browser only *)

Section Frame.
Variable L : N.

Lemma check_reading_keeps m server :
  let m' := snd (check_reading L m server) in
  config m' = config m ∧ email_sender m' = email_sender m
  ∧ last_status m' = last_status m.
Proof.
  unfold check_reading. destruct (driver m) as [d|]; [|done].
  destruct (read_status L d _) as [r d']. done.
Qed.

(** The loop body in terms of what was read. *)
Lemma poll_unfold m server :
  poll L m server =
  let m1 := snd (check_reading L m server) in
  let k := map_id server in
  match observed L m server with
  | Errors _ =>
      if decide (last_status m !! k ≠ Some "error") then
        with_last_status
          (with_email_sender m1
             (snd (send_alert (email_sender m) (name server)
                     (mapshow_url (config m) server) "錯誤")))
          (<[k := "error"]> (last_status m))
      else m1
  | _ => with_last_status m1 (<[k := "normal"]> (last_status m))
  end.
Proof.
  unfold poll, observed, check_server, _check_server_status.
  pose proof (check_reading_keeps m server) as (Hc & He & Hl).
  destruct (check_reading L m server) as [r m1]. simpl in *.
  destruct r; simpl; rewrite ?Hc, ?He, ?Hl; try done.
  destruct (decide _); [|done].
  destruct (send_alert _ _ _ _); done.
Qed.

Lemma check_server_results results m server :
  snd (check_server L (results, m) server) = poll L m server.
Proof.
  unfold poll, check_server.
  destruct (_check_server_status L m server) as [[c e] m1].
  destruct e; [|done].
  destruct (decide _); [|done].
  destruct (send_alert _ _ _ _); done.
Qed.
End Frame.

(** ** One iteration of the loop *)

Lemma send_alert_alerts es n u st :
  alerts (snd (send_alert es n u st)) =
  (alerts es ++ [{| server_name := n; alert_url := u; status := st;
                    outcome := delivery es |}])%list.
Proof.
  unfold send_alert, delivery. destruct (negb (enabled es)); reflexivity.
Qed.

Lemma send_alert_enabled es n u st :
  enabled (snd (send_alert es n u st)) = enabled es.
Proof. unfold send_alert. destruct (negb (enabled es)); reflexivity. Qed.

Section Step.
Variable L : N.

Lemma poll_config m server : config (poll L m server) = config m.
Proof.
  rewrite poll_unfold.
  pose proof (check_reading_keeps L m server) as (Hc & _ & _).
  simpl. destruct (observed L m server); try done.
  destruct (decide _); done.
Qed.

(** A new error: the alert goes out and the error is recorded. *)
Lemma poll_new_error m server :
  severity (observed L m server) = Error →
  last_status m !! map_id server ≠ Some "error" →
  sent (poll L m server) =
    (sent m ++ [alert_for m server (delivery (email_sender m))])%list
  ∧ last_status (poll L m server) = <[map_id server := "error"]> (last_status m).
Proof.
  intros Hs Hl. rewrite poll_unfold. simpl.
  destruct (observed L m server) as [n|o w|]; simpl in Hs;
    [|destruct (0 <? w); discriminate|discriminate].
  destruct (decide _) as [_|Hn]; [|contradiction].
  split; [|done]. unfold sent. simpl. apply send_alert_alerts.
Qed.

(** A standing error: nothing happens but the visit of the browser. *)
Lemma poll_standing_error m server :
  severity (observed L m server) = Error →
  last_status m !! map_id server = Some "error" →
  email_sender (poll L m server) = email_sender m
  ∧ last_status (poll L m server) = last_status m.
Proof.
  intros Hs Hl. rewrite poll_unfold. simpl.
  pose proof (check_reading_keeps L m server) as (_ & He & Hk).
  destruct (observed L m server) as [n|o w|]; simpl in Hs;
    [|destruct (0 <? w); discriminate|discriminate].
  destruct (decide _) as [Hn|_]; [contradiction|done].
Qed.

(** Anything but an error: no alert, and ['normal'] is recorded. *)
Lemma poll_no_error m server :
  severity (observed L m server) ≠ Error →
  email_sender (poll L m server) = email_sender m
  ∧ last_status (poll L m server) = <[map_id server := "normal"]> (last_status m).
Proof.
  intros Hs. rewrite poll_unfold. simpl.
  pose proof (check_reading_keeps L m server) as (_ & He & _).
  destruct (observed L m server) as [n|o w|]; simpl in Hs; done.
Qed.

(** Only the entry of the server's own [map_id] can change. *)
Lemma poll_other_entries m server k :
  k ≠ map_id server →
  last_status (poll L m server) !! k = last_status m !! k.
Proof.
  intros Hk. rewrite poll_unfold. simpl.
  pose proof (check_reading_keeps L m server) as (_ & _ & Hl).
  destruct (observed L m server); simpl;
    try destruct (decide _); simpl;
    rewrite ?Hl, ?lookup_insert_ne; done.
Qed.

Lemma fold_check_server_polls seq results m :
  snd (fold_left (check_server L) seq (results, m)) = polls L seq m.
Proof.
  revert results m. induction seq as [|s seq IH]; intros res m; [done|].
  unfold polls. cbn [fold_left].
  pose proof (check_server_results L res m s) as H.
  destruct (check_server L (res, m) s) as [res' m'].
  simpl in H. subst m'. apply IH.
Qed.

Lemma check_all_servers_polls m :
  snd (check_all_servers L m) = polls L (servers (config m)) m.
Proof. apply fold_check_server_polls. Qed.

Lemma polls_cons s seq m : polls L (s :: seq) m = polls L seq (poll L m s).
Proof. reflexivity. Qed.

Lemma polls_config seq m : config (polls L seq m) = config m.
Proof.
  revert m. induction seq as [|s seq IH]; intros m; [done|].
  rewrite polls_cons, IH. apply poll_config.
Qed.

Lemma polls_app seq1 seq2 m :
  polls L (seq1 ++ seq2)%list m = polls L seq2 (polls L seq1 m).
Proof. apply fold_left_app. Qed.

(** With one configured server, [n] cycles are [n] of its iterations. *)
Lemma cycles_single n m server :
  servers (config m) = [server] →
  cycles L n m = polls L (repeat server n) m.
Proof.
  revert m. induction n as [|n IH]; intros m Hc; [done|].
  cbn [cycles repeat]. rewrite polls_cons, check_all_servers_polls, Hc.
  change (polls L [server] m) with (poll L m server).
  apply IH. rewrite poll_config. done.
Qed.

(** While the error stands, the mail system is left alone. *)
Lemma standing_error_run k seq m :
  Forall (λ s, map_id s = k) seq →
  Forall (λ r, severity r = Error) (readings L seq m) →
  last_status m !! k = Some "error" →
  email_sender (polls L seq m) = email_sender m
  ∧ last_status (polls L seq m) = last_status m.
Proof.
  revert m. induction seq as [|s seq IH]; intros m Hk Hr Hl; [done|].
  inversion Hk as [|? ? Hs Hk']; subst.
  cbn [readings] in Hr. inversion Hr as [|? ? Hr1 Hr']; subst.
  destruct (poll_standing_error m s Hr1 Hl) as [He Hst].
  rewrite polls_cons.
  destruct (IH (poll L m s) Hk' Hr') as [He' Hst'].
  - rewrite Hst. done.
  - rewrite He', Hst', He, Hst. done.
Qed.
End Step.

(** ** Debounced alerting *)



(** A failed check after an error: the stored ['error'] is overwritten,
    and an error read on the next cycle is alerted a second time. *)
Lemma failed_check_resets_status :
  let m := Demo.monitor_after "error" [None] in
  severity (observed 4300 m Demo.alpha) = Unknown
  ∧ last_status m !! map_id Demo.alpha = Some "error"
  ∧ last_status (poll 4300 m Demo.alpha) !! map_id Demo.alpha = Some "normal"
  ∧ last_status (poll 4300 m Demo.alpha) ≠ last_status m
  ∧ List.length
      (sent (cycles 4300 3
               (Demo.monitor [Demo.alpha] (Some "mail.example") (λ _, true)
                  [Some Demo.red; None; Some Demo.red]))) = 2%nat.
Proof.
  intros m.
  split; [vm_compute; reflexivity|]. split; [vm_compute; reflexivity|].
  split; [vm_compute; reflexivity|]. split; [|vm_compute; reflexivity].
  intros H. apply (f_equal (λ st, st !! map_id Demo.alpha)) in H.
  vm_compute in H. discriminate.
Qed.

(** C2, as the program has it.  When the status check of a server fails,
    no alert is produced for it on that poll, and the status stored for its
    map is set to ['normal'], whatever was stored before (nothing,
    ['normal'] or ['error']): a failed check is recorded like a healthy
    one. *)
Theorem failed_check_records_normal (L : N) (m : PRTGMonitor) (server : Server) :
  severity (observed L m server) = Unknown →
  sent (poll L m server) = sent m
  ∧ email_sender (poll L m server) = email_sender m
  ∧ last_status (poll L m server) = <[map_id server := "normal"]> (last_status m).
Proof.
  intros Hs.
  destruct (poll_no_error L m server) as [He Hl]; [by rewrite Hs|].
  unfold sent. rewrite He. done.
Qed.

(** The scenario of the specification (Normal, Error, Error, failed check,
    Normal, Error): the alerts come out as described, two in all, but the
    stored status after the failed check is ['normal']. *)
Example specification_scenario :
  let m := Demo.monitor [Demo.alpha] (Some "mail.example") (λ _, true)
             [Some Demo.green; Some Demo.red; Some Demo.red; None;
              Some Demo.green; Some Demo.red] in
  map (λ n, List.length (sent (cycles 4300 n m))) [1; 2; 3; 4; 5; 6]%nat
  = [0; 1; 1; 1; 1; 2]%nat
  ∧ map (λ n, last_status (cycles 4300 n m) !! map_id Demo.alpha) [1; 2; 3; 4; 5; 6]%nat
    = [Some "normal"; Some "error"; Some "error"; Some "normal";
       Some "normal"; Some "error"].
Proof. split; vm_compute; reflexivity. Qed.

Lemma failed_check_records_normal_witness :
  let m := Demo.monitor_after "error" [None] in
  sent (poll 4300 m Demo.alpha) = sent m
  ∧ email_sender (poll 4300 m Demo.alpha) = email_sender m
  ∧ last_status (poll 4300 m Demo.alpha)
    = <[map_id Demo.alpha := "normal"]> (last_status m).
Proof.
  intros m. apply (failed_check_records_normal 4300 m Demo.alpha).
  vm_compute. reflexivity.
Defined.

(** The status check looks at the browser and the configuration only. *)
Lemma check_reading_mail (L : N) (m : PRTGMonitor) (es : EmailSender) (server : Server) :
  check_reading L (with_email_sender m es) server
  = (observed L m server,
     with_email_sender (snd (check_reading L m server)) es).
Proof.
  unfold observed, check_reading. simpl.
  destruct (driver m) as [d|]; [|done].
  destruct (read_status L d _) as [r d']. done.
Qed.

Lemma observed_mail (L : N) (m : PRTGMonitor) (es : EmailSender) (server : Server) :
  observed L (with_email_sender m es) server = observed L m server.
Proof. unfold observed at 1. rewrite check_reading_mail. done. Qed.

(** Once ['error'] is stored for map [k], it stays as long as the
    iterations on [k] read an error. *)
Lemma error_entry_stands (L : N) (k : Z) (seq : list Server) (m : PRTGMonitor) :
  Forall (λ sr, map_id sr.1 ≠ k ∨ severity sr.2 = Error)
    (zip seq (readings L seq m)) →
  last_status m !! k = Some "error" →
  last_status (polls L seq m) !! k = Some "error".
Proof.
  revert m. induction seq as [|s seq IH]; intros m Hq Hl; [done|].
  cbn [readings zip zip_with] in Hq.
  inversion Hq as [|? ? Hhead Htail]; subst. simpl in Hhead.
  rewrite polls_cons. apply IH; [done|].
  destruct (decide (map_id s = k)) as [Hk|Hk].
  - destruct Hhead as [Hne|He]; [done|]. subst k.
    destruct (poll_standing_error L m s He Hl) as [_ ->]. done.
  - rewrite poll_other_entries; done.
Qed.

(** C3.  When the check reads an error and the stored status is not
    ['error'], the stored status becomes ['error'] whatever the mail system
    does with the alert: the new store does not depend on the sender, be it
    disabled, failing or delivering.  As long as the polls of that map keep
    reading an error, each of them leaves the sender untouched: no further
    call, no further attempt. *)
Theorem error_recorded_whatever_delivery (L : N) (m : PRTGMonitor) (server : Server) :
  severity (observed L m server) = Error →
  last_status m !! map_id server ≠ Some "error" →
  let m1 := poll L m server in
  sent m1 = (sent m ++ [alert_for m server (delivery (email_sender m))])%list
  ∧ last_status m1 = <[map_id server := "error"]> (last_status m)
  ∧ (∀ es, last_status (poll L (with_email_sender m es) server) = last_status m1)
  ∧ ∀ between next,
      Forall (λ sr, map_id sr.1 ≠ map_id server ∨ severity sr.2 = Error)
        (zip between (readings L between m1)) →
      map_id next = map_id server →
      let m2 := polls L between m1 in
      severity (observed L m2 next) = Error →
      email_sender (poll L m2 next) = email_sender m2
      ∧ last_status (poll L m2 next) = last_status m2.
Proof.
  intros Hs Hl. cbv zeta.
  destruct (poll_new_error L m server Hs Hl) as [Hsent Hst].
  split; [done|split; [done|split]].
  - intros es.
    destruct (poll_new_error L (with_email_sender m es) server) as [_ ->].
    + by rewrite observed_mail.
    + done.
    + by rewrite Hst.
  - intros between next Hq Hk Hnext. apply poll_standing_error; [done|].
    rewrite Hk. apply error_entry_stands; [done|].
    rewrite Hst. apply lookup_insert_eq.
Qed.

Lemma error_recorded_whatever_delivery_witness :
  let m := Demo.monitor [Demo.alpha; Demo.beta] (Some "mail.example") (λ _, false)
             [Some Demo.red; Some Demo.green; Some Demo.red] in
  let m1 := poll 4300 m Demo.alpha in
  let m2 := poll 4300 m1 Demo.beta in
  sent m1 = [alert_for m Demo.alpha Failed]
  ∧ last_status m1 = <[map_id Demo.alpha := "error"]> (last_status m)
  ∧ email_sender (poll 4300 m2 Demo.alpha) = email_sender m2.
Proof.
  intros m m1 m2.
  assert (Hs : severity (observed 4300 m Demo.alpha) = Error)
    by (vm_compute; reflexivity).
  assert (Hl : last_status m !! map_id Demo.alpha ≠ Some "error")
    by (vm_compute; discriminate).
  destruct (error_recorded_whatever_delivery 4300 m Demo.alpha Hs Hl)
    as (Hsent & Hst & _ & Hnext).
  split; [exact Hsent|split; [exact Hst|]].
  apply (Hnext [Demo.beta] Demo.alpha).
  - replace (zip _ _) with [(Demo.beta, Healthy 5 0)] by (vm_compute; reflexivity).
    constructor; [left; simpl; discriminate|constructor].
  - reflexivity.
  - vm_compute. reflexivity.
Defined.

(** As long as the iterations on map [k] read no error, the entry of [k]
    does not become ['error']. *)
Lemma armed_run (L : N) (k : Z) (seq : list Server) (m : PRTGMonitor) :
  Forall (λ sr, map_id sr.1 ≠ k ∨ severity sr.2 ≠ Error)
    (zip seq (readings L seq m)) →
  last_status m !! k ≠ Some "error" →
  last_status (polls L seq m) !! k ≠ Some "error".
Proof.
  revert m. induction seq as [|s seq IH]; intros m Hq Hl; [done|].
  cbn [readings zip zip_with] in Hq.
  inversion Hq as [|? ? Hhead Htail]; subst. simpl in Hhead.
  rewrite polls_cons. apply IH; [done|].
  destruct (decide (map_id s = k)) as [Hk|Hk].
  - destruct Hhead as [Hne|Hne]; [done|].
    destruct (poll_no_error L m s Hne) as [_ ->].
    rewrite Hk, lookup_insert_eq. done.
  - rewrite poll_other_entries; done.
Qed.

(** A page with a warning and a page without leave the same store: what is
    recorded is ['normal'], not the severity of the observation. *)
Lemma warning_stored_as_normal :
  let warned := Demo.monitor [Demo.alpha] None (λ _, true) [Some Demo.yellow] in
  let fine := Demo.monitor [Demo.alpha] None (λ _, true) [Some Demo.green] in
  severity (observed 4300 warned Demo.alpha) = Warning
  ∧ severity (observed 4300 fine Demo.alpha) = Normal
  ∧ last_status (poll 4300 warned Demo.alpha) !! map_id Demo.alpha = Some "normal"
  ∧ last_status (poll 4300 warned Demo.alpha)
    = last_status (poll 4300 fine Demo.alpha).
Proof.
  intros warned fine.
  split; [vm_compute; reflexivity|].
  split; [vm_compute; reflexivity|].
  split; [vm_compute; reflexivity|].
  apply map_eq. intros i.
  unfold warned, fine.
  rewrite !poll_unfold. vm_compute. reflexivity.
Qed.

(** C6, as the program has it.  When the check reads no error and did not
    fail (the verdict is Normal or Warning), no alert is produced and the
    status stored for the server's map is set to ['normal']: the store
    holds ['normal'] or ['error'] only, and a warning is recorded as
    ['normal'].  From then on, as long as the polls of that map read no
    error, the first poll of that map that reads an error produces an
    alert. *)
Theorem healthy_reading_rearms (L : N) (m : PRTGMonitor) (server : Server) :
  severity (observed L m server) = Normal
  ∨ severity (observed L m server) = Warning →
  let m1 := poll L m server in
  sent m1 = sent m
  ∧ last_status m1 = <[map_id server := "normal"]> (last_status m)
  ∧ ∀ seq next,
      Forall (λ sr, map_id sr.1 ≠ map_id server ∨ severity sr.2 ≠ Error)
        (zip seq (readings L seq m1)) →
      map_id next = map_id server →
      let m2 := polls L seq m1 in
      severity (observed L m2 next) = Error →
      sent (poll L m2 next)
      = (sent m2 ++ [alert_for m2 next (delivery (email_sender m2))])%list.
Proof.
  intros Hs. cbv zeta.
  destruct (poll_no_error L m server) as [He Hl].
  { destruct Hs as [-> | ->]; done. }
  split; [unfold sent; by rewrite He|]. split; [done|].
  intros seq next Hq Hk Hnext.
  apply poll_new_error; [done|].
  rewrite Hk. apply armed_run; [done|].
  rewrite Hl, lookup_insert_eq. done.
Qed.

Lemma healthy_reading_rearms_witness :
  let m := Demo.monitor [Demo.alpha; Demo.beta] (Some "mail.example") (λ _, true)
             [Some Demo.yellow; Some Demo.red; None; Some Demo.red] in
  let m1 := poll 4300 m Demo.alpha in
  let m2 := polls 4300 [Demo.beta; Demo.alpha] m1 in
  (sent m1 = sent m
   ∧ last_status m1 = <[map_id Demo.alpha := "normal"]> (last_status m))
  ∧ sent (poll 4300 m2 Demo.alpha)
    = (sent m2 ++ [alert_for m2 Demo.alpha (delivery (email_sender m2))])%list.
Proof.
  intros m m1 m2.
  assert (Hs : severity (observed 4300 m Demo.alpha) = Normal
               ∨ severity (observed 4300 m Demo.alpha) = Warning)
    by (right; vm_compute; reflexivity).
  destruct (healthy_reading_rearms 4300 m Demo.alpha Hs) as (Hsent & Hst & Hnext).
  split; [split; [exact Hsent|exact Hst]|].
  apply (Hnext [Demo.beta; Demo.alpha] Demo.alpha).
  - replace (zip _ _) with [(Demo.beta, Errors 2); (Demo.alpha, CheckFailed)]
      by (vm_compute; reflexivity).
    constructor; [left; simpl; discriminate|].
    constructor; [right; simpl; discriminate|constructor].
  - reflexivity.
  - vm_compute. reflexivity.
Defined.

(** ** Classification and counting *)

Lemma int_value (L : N) (t : string) (v : Z) :
  int L t = Some v → v = decimal_value 0 t.
Proof.
  unfold int. destruct t as [|c t]; [discriminate|].
  destruct (all_chars is_decimal _); [|discriminate].
  destruct (_ && _ && _)%bool; [discriminate|]. congruence.
Qed.

Lemma sum_labels_usable (L : N) (elements : list WebElement) :
  forallb (usable L) elements = true →
  sum_labels L elements = Some (label_sum elements).
Proof.
  induction elements as [|el rest IH]; [done|].
  cbn [forallb sum_labels label_sum fold_right]. intros Hu.
  apply andb_prop in Hu as [Hel Hrest]. specialize (IH Hrest).
  fold (label_sum rest). unfold usable, label_value in *.
  destruct (text el) as [t|]; [|discriminate]. simpl.
  destruct (isdigit t); simpl in *; [|done].
  destruct (int L t) as [v|] eqn:Hv; [|discriminate].
  apply int_value in Hv. subst v. simpl. rewrite IH. done.
Qed.

Lemma sum_labels_unusable (L : N) (elements : list WebElement) :
  forallb (usable L) elements = false →
  sum_labels L elements = None.
Proof.
  induction elements as [|el rest IH]; [done|].
  cbn [forallb sum_labels]. intros Hu.
  unfold usable in Hu at 1.
  destruct (text el) as [t|]; [|done]. simpl.
  destruct (isdigit t); simpl in *; [|by apply IH].
  destruct (int L t) as [v|]; [|done]. simpl in *.
  rewrite (IH Hu). done.
Qed.

Lemma decimal_value_nonneg (t : string) (acc : Z) :
  all_chars is_decimal t = true → 0 ≤ acc → 0 ≤ decimal_value acc t.
Proof.
  revert acc. induction t as [|c t IH]; intros acc Hd Ha; [done|].
  simpl in *. apply andb_prop in Hd as [Hc Ht]. apply IH; [done|].
  unfold is_decimal, in_range in Hc. apply andb_prop in Hc as [Hlo _].
  apply N.leb_le in Hlo. lia.
Qed.

Lemma label_sum_nonneg (L : N) (elements : list WebElement) :
  forallb (usable L) elements = true → 0 ≤ label_sum elements.
Proof.
  induction elements as [|el rest IH]; [done|].
  cbn [forallb label_sum fold_right]. intros Hu.
  apply andb_prop in Hu as [Hel Hrest]. specialize (IH Hrest).
  fold (label_sum rest).
  assert (0 ≤ label_value el); [|lia].
  unfold usable, label_value in *.
  destruct (text el) as [t|]; [|done].
  destruct (isdigit t); simpl in *; [|done].
  unfold int in Hel. destruct t as [|c t]; [done|].
  destruct (all_chars is_decimal (String c t)) eqn:Hd; [|done].
  by apply decimal_value_nonneg.
Qed.

(** The labels ["3"] and [""] count 3: the element without a number adds
    nothing.  And the count can equal the number of elements although a
    positive label is present. *)
Lemma numeric_labels_add_up_not_count :
  count_labels 4300 [Demo.el "3"; Demo.el ""] = 3
  ∧ spec_count [Demo.el "3"; Demo.el ""] = 4
  ∧ count_labels 4300 [Demo.el "3"; Demo.el ""]
    ≠ spec_count [Demo.el "3"; Demo.el ""]
  ∧ count_labels 4300 [Demo.el "2"; Demo.el ""] = 2
  ∧ label_value (Demo.el "2") = 2.
Proof.
  split; [vm_compute; reflexivity|]. split; [vm_compute; reflexivity|].
  split; [vm_compute; discriminate|]. split; vm_compute; reflexivity.
Qed.

(** C5, as the program has it.  For every list of indicator elements of
    one severity whose texts can be read and, when numeric, converted, the
    computed count is the sum of the values of the numeric texts, an
    element with non-numeric or empty text adding nothing, when that sum is
    positive, and the number of elements when that sum is 0; so it is the
    number of elements whenever no element carries a positive numeric
    label. *)
Theorem count_is_label_sum_or_length (L : N) (elements : list WebElement) :
  forallb (usable L) elements = true →
  0 ≤ label_sum elements
  ∧ count_labels L elements =
      (if label_sum elements =? 0
       then Z.of_nat (List.length elements) else label_sum elements)
  ∧ (Forall (λ el, label_value el ≤ 0) elements →
     count_labels L elements = Z.of_nat (List.length elements)).
Proof.
  intros Hu. pose proof (label_sum_nonneg L elements Hu) as Hpos.
  assert (Hc : count_labels L elements =
               (if label_sum elements =? 0
                then Z.of_nat (List.length elements) else label_sum elements)).
  { unfold count_labels. rewrite (sum_labels_usable L elements Hu). done. }
  split; [done|split; [done|]].
  intros Hnone. rewrite Hc.
  assert (label_sum elements ≤ 0) as Hle.
  { clear -Hnone. induction Hnone as [|el rest Hel _ IH]; [done|].
    cbn [label_sum fold_right]. fold (label_sum rest). lia. }
  destruct (Z.eqb_spec (label_sum elements) 0); [done|lia].
Qed.

Lemma count_is_label_sum_or_length_witness :
  count_labels 4300 [Demo.el "3"; Demo.el ""; Demo.el "12"] = 15
  ∧ count_labels 4300 [Demo.el "0"; Demo.el "x"; Demo.el ""] = 3.
Proof.
  split.
  - apply (count_is_label_sum_or_length 4300 [Demo.el "3"; Demo.el ""; Demo.el "12"]).
    vm_compute. reflexivity.
  - apply (count_is_label_sum_or_length 4300 [Demo.el "0"; Demo.el "x"; Demo.el ""]).
    + vm_compute. reflexivity.
    + repeat constructor; vm_compute; discriminate.
Defined.

(** A label the program cannot read or convert makes the count fall back
    on the number of elements. *)
Lemma count_falls_back (L : N) (elements : list WebElement) :
  forallb (usable L) elements = false →
  count_labels L elements = Z.of_nat (List.length elements).
Proof.
  intros Hu. unfold count_labels. rewrite (sum_labels_unusable L elements Hu). done.
Qed.

Example count_with_stale_element :
  count_labels 4300 [Demo.el "3"; Demo.stale] = 2.
Proof. apply count_falls_back. reflexivity. Qed.

Example count_with_superscript_label :
  isdigit (String (ascii_of_N 178) "") = true
  ∧ count_labels 4300 [Demo.el "3"; Demo.squared; Demo.el "4"] = 3.
Proof. split; [reflexivity|]. apply count_falls_back. reflexivity. Qed.



(** ** Colour normalisation *)

Lemma literal_app (p s : string) : literal p (p ++ s) = Some s.
Proof.
  unfold literal.
  assert (String.prefix p (p ++ s) = true) as ->.
  { induction p as [|c p IH]; simpl; [by destruct s|].
    destruct (ascii_dec c c); [done|congruence]. }
  f_equal. induction p as [|c p IH]; simpl; done.
Qed.

Lemma drop_while_app (p : ascii → bool) (w s : string) :
  all_chars p w = true → starts_outside p s = true →
  drop_while p (w ++ s) = s.
Proof.
  intros Hw Hs. induction w as [|c w IH]; simpl in *.
  - destruct s as [|c s]; [done|]. simpl in *.
    destruct (p c); [discriminate|done].
  - apply andb_prop in Hw as [-> Hw]. by apply IH.
Qed.

Lemma take_while_app (p : ascii → bool) (w s : string) :
  all_chars p w = true → starts_outside p s = true →
  take_while p (w ++ s) = w.
Proof.
  intros Hw Hs. induction w as [|c w IH]; simpl in *.
  - destruct s as [|c s]; [done|]. simpl in *.
    destruct (p c); [discriminate|done].
  - apply andb_prop in Hw as [-> Hw]. f_equal. by apply IH.
Qed.

Lemma digits_app (r s : string) :
  r ≠ "" → all_chars is_decimal r = true → starts_outside is_decimal s = true →
  digits (r ++ s) = Some (r, s).
Proof.
  intros Hne Hr Hs. unfold digits.
  rewrite take_while_app, drop_while_app by done.
  destruct r; done.
Qed.

(** A character in one class is outside a class disjoint from it. *)
Lemma starts_outside_app (p q : ascii → bool) (w s : string) :
  (∀ c, p c = true → q c = false) →
  all_chars p w = true → starts_outside q s = true →
  starts_outside q (w ++ s) = true.
Proof.
  intros Hpq Hw Hs. destruct w as [|c w]; [done|].
  simpl in *. apply andb_prop in Hw as [Hc _]. by rewrite (Hpq c Hc).
Qed.

Lemma starts_outside_nonempty (p q : ascii → bool) (w s : string) :
  (∀ c, p c = true → q c = false) →
  w ≠ "" → all_chars p w = true →
  starts_outside q (w ++ s) = true.
Proof.
  intros Hpq Hne Hw. destruct w as [|c w]; [done|].
  simpl in *. apply andb_prop in Hw as [Hc _]. by rewrite (Hpq c Hc).
Qed.

Lemma space_not_decimal (c : ascii) : char_isspace c = true → is_decimal c = false.
Proof. destruct c as [[] [] [] [] [] [] [] []]; vm_compute; congruence. Qed.

Lemma decimal_not_space (c : ascii) : is_decimal c = true → char_isspace c = false.
Proof. destruct c as [[] [] [] [] [] [] [] []]; vm_compute; congruence. Qed.

Lemma space_not_prefix_a (c : ascii) (s : string) :
  char_isspace c = true → String.prefix "a" (String c s) = false.
Proof.
  destruct c as [[] [] [] [] [] [] [] []]; vm_compute; intros; congruence.
Qed.

Lemma lower_has_no_capital (s : string) :
  all_chars (λ c, negb (in_range 65 90 c)) (lower s) = true.
Proof.
  induction s as [|c s IH]; [done|]. simpl. rewrite IH, andb_true_r.
  destruct c as [[] [] [] [] [] [] [] []]; vm_compute; reflexivity.
Qed.

Lemma format_02x_byte (v : Z) :
  0 ≤ v ≤ 255 →
  String.length (format_02x v) = 2%nat
  ∧ all_chars is_lower_hex (format_02x v) = true.
Proof.
  intros Hv.
  assert (Hall : forallb (λ n, (String.length (format_02x (Z.of_nat n)) =? 2)%nat
                              && all_chars is_lower_hex (format_02x (Z.of_nat n)))
                   (seq 0 256) = true) by (vm_compute; reflexivity).
  rewrite forallb_forall in Hall.
  specialize (Hall (Z.to_nat v)). rewrite Z2Nat.id in Hall by lia.
  destruct (andb_prop _ _ (Hall ltac:(apply in_seq; lia))) as [Hlen Hhex].
  apply Nat.eqb_eq in Hlen. done.
Qed.

Section Pattern.
Variables w1 w2 w3 w4 w5 w6 r g b rest : string.
Hypothesis Hw1 : all_chars char_isspace w1 = true.
Hypothesis Hw2 : all_chars char_isspace w2 = true.
Hypothesis Hw3 : all_chars char_isspace w3 = true.
Hypothesis Hw4 : all_chars char_isspace w4 = true.
Hypothesis Hw5 : all_chars char_isspace w5 = true.
Hypothesis Hw6 : all_chars char_isspace w6 = true.
Hypothesis Hr : r ≠ "" ∧ all_chars is_decimal r = true.
Hypothesis Hg : g ≠ "" ∧ all_chars is_decimal g = true.
Hypothesis Hb : b ≠ "" ∧ all_chars is_decimal b = true.
Hypothesis Hrest : starts_outside is_decimal rest = true.

Local Abbreviation channel_text := (channel_text w1 w2 w3 w4 w5 w6 r g b rest).

Ltac skip_blanks w :=
  match goal with
  | |- context [drop_while char_isspace (w ++ ?s)] =>
      rewrite (drop_while_app char_isspace w s);
      [ | assumption
        | first [ reflexivity
                | apply (starts_outside_nonempty is_decimal);
                  [apply decimal_not_space | tauto | tauto] ] ]
  end.

Ltac read_digits d :=
  match goal with
  | |- context [digits (d ++ ?s)] =>
      rewrite (digits_app d s);
      [ | tauto | tauto
        | first [ assumption
                | apply (starts_outside_app char_isspace);
                  [apply space_not_decimal | assumption | reflexivity] ] ]
  end.

Lemma rgb_channels_shape : rgb_channels channel_text = Some (r, g, b).
Proof.
  unfold channel_text, rgb_channels, spaces.
  skip_blanks w1. rewrite (literal_app "("). cbn [mbind option_bind].
  skip_blanks w2. read_digits r. cbn [mbind option_bind].
  skip_blanks w3. rewrite (literal_app ","). cbn [mbind option_bind].
  skip_blanks w4. read_digits g. cbn [mbind option_bind].
  skip_blanks w5. rewrite (literal_app ","). cbn [mbind option_bind].
  skip_blanks w6. read_digits b. reflexivity.
Qed.

Lemma rgb_match_shape (a : string) :
  a = "" ∨ a = "a" →
  rgb_match ("rgb" ++ a ++ channel_text) = Some (r, g, b).
Proof.
  intros Ha. unfold rgb_match.
  rewrite (literal_app "rgb"). cbn [mbind option_bind].
  destruct Ha as [-> | ->].
  - assert (literal "a" ("" ++ channel_text) = None) as ->; [|apply rgb_channels_shape].
    unfold literal, channel_text. destruct w1 as [|c w]; [reflexivity|].
    cbn [all_chars] in Hw1. apply andb_prop in Hw1 as [Hc _].
    change ("" ++ String c w ++ ?s) with (String c (w ++ s)).
    rewrite (space_not_prefix_a c _ Hc). done.
  - rewrite (literal_app "a"). rewrite rgb_channels_shape. done.
Qed.
End Pattern.

Lemma int_decimal (L : N) (t : string) (v : Z) :
  int L t = Some v →
  (t ≠ "" ∧ all_chars is_decimal t = true) ∧ 0 ≤ v.
Proof.
  intros Hv. pose proof (int_value L t v Hv) as ->.
  unfold int in Hv. destruct t as [|c t]; [discriminate|].
  destruct (all_chars is_decimal (String c t)) eqn:Hd; [|discriminate].
  split; [done|]. by apply decimal_value_nonneg.
Qed.

Lemma length_append (s t : string) :
  String.length (s ++ t) = (String.length s + String.length t)%nat.
Proof. induction s as [|c s IH]; [done|]. simpl. by rewrite IH. Qed.

Lemma all_chars_app (p : ascii → bool) (s t : string) :
  all_chars p (s ++ t) = all_chars p s && all_chars p t.
Proof.
  induction s as [|c s IH]; [done|]. simpl. rewrite IH. apply andb_assoc.
Qed.



(** ** Single-pass mode *)

Lemma read_status_quits (L : N) (d : WebDriver) (url : string) :
  quits (snd (read_status L d url)) = quits d.
Proof.
  unfold read_status, get, find_elements. cbn.
  destruct (web d (visits d) url) as [p|]; cbn; [|done].
  destruct (matches p ".sensr") as [sensr|]; [|done].
  destruct (nonempty sensr); [done|].
  destruct (matches p ".sensy") as [sensy|]; [|done].
  destruct (matches p ".sensg") as [sensg|]; done.
Qed.

Lemma poll_quits (L : N) (m : PRTGMonitor) (server : Server) :
  option_map quits (driver (poll L m server)) = option_map quits (driver m).
Proof.
  rewrite poll_unfold. cbv zeta.
  assert (option_map quits (driver (snd (check_reading L m server)))
          = option_map quits (driver m)) as Hd.
  { unfold check_reading. destruct (driver m) as [d|] eqn:Hd; [|cbn; by rewrite Hd].
    pose proof (read_status_quits L d (maponly_url (config m) server)) as Hq.
    destruct (read_status L d _) as [r d']. cbn in *. by rewrite Hq. }
  destruct (observed L m server); try destruct (decide _); done.
Qed.

Lemma polls_quits (L : N) (seq : list Server) (m : PRTGMonitor) :
  option_map quits (driver (polls L seq m)) = option_map quits (driver m).
Proof.
  revert m. induction seq as [|s seq IH]; intros m; [done|].
  rewrite polls_cons, IH. apply poll_quits.
Qed.

Lemma login_quits (m : PRTGMonitor) :
  option_map quits (driver (snd (_login m))) = option_map quits (driver m).
Proof.
  unfold _login. destruct (driver m) as [d|] eqn:Hd; [|cbn; by rewrite Hd].
  unfold get. cbn. destruct (web d (visits d) _); cbn; [|done].
  destruct (sign_in d _ _); done.
Qed.

(** The exit status [main] derives from how a mode ends. *)
Lemma close_exit (m : PRTGMonitor) (q : bool) :
  option_map quits (driver m) = Some q →
  close m = if q then Returns m else Raises m.
Proof.
  unfold close. destruct (driver m) as [d|]; [|discriminate].
  cbn. intros [= ->]. done.
Qed.

(** A rejected login in single-pass mode: the process exits with 0. *)
Lemma failed_login_exits_zero :
  let env := Demo.env Demo.rejected [Demo.alpha] [Some blank; Some Demo.red] in
  fst (_login (with_driver (init (Demo.cfg [Demo.alpha] (Some "mail.example")) (mail env))
                 (Some (start (network env) (login_form env) (chrome_quits env)))))
  = false
  ∧ fst (main 4300 Demo.args_test env 0) = 0.
Proof. split; vm_compute; reflexivity. Qed.

(** C8, as the program has it.  In single-pass mode ([--test]), once the
    configuration is read and the browser has started, the program logs in
    and, when that succeeds, runs exactly one cycle over all servers; when
    logging in fails it runs none.  Either way it closes the browser and,
    if closing does not raise, exits with status 0: a failed login does not
    change the exit status.  The status is 1 when there is no usable
    configuration file, when the browser cannot start, or when closing it
    raises. *)
Theorem test_mode_single_pass (L : N) (args : Args) (env : Environment) (k : nat) :
  test_mode args = true →
  (∀ cfg,
     files env (config_path args) = Some (Some cfg) →
     chrome_starts env = true →
     let opened :=
       with_driver (init cfg (mail env))
         (Some (start (network env) (login_form env) (chrome_quits env))) in
     let logged_in := fst (_login opened) in
     let m := snd (_login opened) in
     main L args env k
     = (if chrome_quits env then 0 else 1,
        Some (if logged_in then snd (check_all_servers L m) else m)))
  ∧ (∀ cfg,
       files env (config_path args) = Some (Some cfg) →
       chrome_starts env = false →
       main L args env k = (1, Some (init cfg (mail env))))
  ∧ (files env (config_path args) = None
     ∨ files env (config_path args) = Some None →
     main L args env k = (1, None)).
Proof.
  intros Ht. unfold main. rewrite Ht. split; [|split].
  - intros cfg -> Hstart. cbv zeta. unfold test, _init_browser. rewrite Hstart.
    pose proof (login_quits (with_driver (init cfg (mail env))
      (Some (start (network env) (login_form env) (chrome_quits env))))) as Hq.
    destruct (_login _) as [logged_in m]. cbn [fst snd negb] in *.
    change (option_map quits (driver (with_driver _ _)))
      with (Some (chrome_quits env)) in Hq.
    destruct logged_in; cbn [negb].
    + pose proof (check_all_servers_polls L m) as Hcycle.
      destruct (check_all_servers L m) as [results m']. cbn [snd] in *.
      rewrite (close_exit m' (chrome_quits env)).
      * destruct (chrome_quits env); done.
      * rewrite Hcycle, polls_quits. done.
    + rewrite (close_exit m (chrome_quits env) Hq).
      destruct (chrome_quits env); done.
  - intros cfg -> Hstart. unfold test, _init_browser. rewrite Hstart. done.
  - intros [-> | ->]; done.
Qed.

Lemma test_mode_single_pass_witness :
  let env := Demo.env Demo.landing [Demo.alpha; Demo.beta]
               [Some blank; Some Demo.red; Some Demo.green] in
  main 4300 Demo.args_test env 0
  = (0,
     Some (polls 4300 [Demo.alpha; Demo.beta]
             (snd (_login
                (with_driver (init (Demo.cfg [Demo.alpha; Demo.beta] (Some "mail.example")) (mail env))
                   (Some (start (network env) (login_form env) (chrome_quits env))))))))
  ∧ main 4300 Demo.args_test
      (Demo.env Demo.rejected [Demo.alpha; Demo.beta] [Some blank]) 0
    = (0,
       Some (snd (_login
         (with_driver (init (Demo.cfg [Demo.alpha; Demo.beta] (Some "mail.example")) (λ _, true))
            (Some (start (Demo.scripted [Some blank]) Demo.rejected true)))))).
Proof.
  intros env. split.
  - destruct (test_mode_single_pass 4300 Demo.args_test env 0 eq_refl) as (Hrun & _ & _).
    rewrite (Hrun (Demo.cfg [Demo.alpha; Demo.beta] (Some "mail.example")) eq_refl eq_refl).
    rewrite check_all_servers_polls. reflexivity.
  - destruct (test_mode_single_pass 4300 Demo.args_test
                (Demo.env Demo.rejected [Demo.alpha; Demo.beta] [Some blank]) 0 eq_refl)
      as (Hrun & _ & _).
    rewrite (Hrun (Demo.cfg [Demo.alpha; Demo.beta] (Some "mail.example")) eq_refl eq_refl).
    reflexivity.
Defined.

(** ** The store is keyed by [map_id] *)

Lemma polls_other_entries (L : N) (k : Z) (seq : list Server) (m : PRTGMonitor) :
  Forall (λ s, map_id s ≠ k) seq →
  last_status (polls L seq m) !! k = last_status m !! k.
Proof.
  revert m. induction seq as [|s seq IH]; intros m Hk; [done|].
  inversion Hk as [|? ? Hs Hrest]; subst.
  rewrite polls_cons, IH by done. apply poll_other_entries. done.
Qed.

(** C9.  The status store is keyed by the [map_id] of a server and by
    nothing else.  An iteration on a server reads and writes the entry of
    its [map_id] only.  Two servers with the same [map_id], whatever their
    names, share that entry: when the first reads an error, an error read
    by the second right after produces no alert, even if it is the first
    error ever read for the second.  When the configured [map_id]s are
    pairwise distinct, every server is compared, within a cycle, with the
    status its own map had before the cycle, and the status found for its
    map after the cycle is the one its own iteration stored. *)
Theorem store_keyed_by_map_id (L : N) (m : PRTGMonitor) :
  (∀ s k, k ≠ map_id s → last_status (poll L m s) !! k = last_status m !! k)
  ∧ (∀ s1 between s2,
       map_id s1 = map_id s2 →
       Forall (λ s, map_id s ≠ map_id s1) between →
       severity (observed L m s1) = Error →
       let m2 := polls L between (poll L m s1) in
       severity (observed L m2 s2) = Error →
       sent (poll L m2 s2) = sent m2)
  ∧ (∀ before s after,
       NoDup (map map_id (before ++ s :: after)) →
       let mi := polls L before m in
       last_status mi !! map_id s = last_status m !! map_id s
       ∧ last_status (polls L (before ++ s :: after) m) !! map_id s
         = last_status (poll L mi s) !! map_id s).
Proof.
  split; [|split].
  - intros s k Hk. by apply poll_other_entries.
  - intros s1 between s2 Hk Hbetween H1. cbv zeta. intros H2.
    assert (last_status (poll L m s1) !! map_id s1 = Some "error") as Hl.
    { destruct (decide (last_status m !! map_id s1 = Some "error")) as [Hl|Hl].
      - destruct (poll_standing_error L m s1 H1 Hl) as [_ ->]. done.
      - destruct (poll_new_error L m s1 H1 Hl) as [_ ->]. apply lookup_insert_eq. }
    rewrite <- (polls_other_entries L _ between) in Hl by done.
    rewrite Hk in Hl.
    destruct (poll_standing_error L _ s2 H2 Hl) as [He _].
    unfold sent. by rewrite He.
  - intros before s after Hnd. cbv zeta.
    rewrite map_app in Hnd. cbn [map] in Hnd.
    apply NoDup_app in Hnd as (_ & Hbefore & Hafter).
    apply NoDup_cons in Hafter as [Hafter _].
    split.
    + apply polls_other_entries. apply Forall_forall. intros x Hx Heq.
      apply (Hbefore (map_id x)).
      * apply list_elem_of_In, in_map, list_elem_of_In. done.
      * rewrite Heq. left.
    + rewrite polls_app, polls_cons.
      apply polls_other_entries. apply Forall_forall. intros x Hx Heq.
      apply Hafter. rewrite <- Heq.
      apply list_elem_of_In, in_map, list_elem_of_In. done.
Qed.

Lemma store_keyed_by_map_id_witness :
  let m := Demo.monitor [Demo.alpha; Demo.beta; Demo.alias] (Some "mail.example")
             (λ _, true) [Some Demo.red; Some Demo.green; Some Demo.red] in
  sent (polls 4300 [Demo.alpha; Demo.beta; Demo.alias] m)
  = sent (polls 4300 [Demo.alpha; Demo.beta] m)
  ∧ last_status (poll 4300 m Demo.alpha) !! map_id Demo.beta
    = last_status m !! map_id Demo.beta
  ∧ last_status (polls 4300 [Demo.alpha; Demo.beta] m) !! map_id Demo.beta
    = last_status (poll 4300 (polls 4300 [Demo.alpha] m) Demo.beta)
        !! map_id Demo.beta.
Proof.
  intros m.
  destruct (store_keyed_by_map_id 4300 m) as (Hframe & Hshare & Hind).
  split; [|split].
  - apply (Hshare Demo.alpha [Demo.beta] Demo.alias).
    + reflexivity.
    + constructor; [vm_compute; discriminate|constructor].
    + vm_compute. reflexivity.
    + vm_compute. reflexivity.
  - apply (Hframe Demo.alpha). vm_compute. discriminate.
  - apply (Hind [Demo.alpha] Demo.beta []).
    vm_compute. repeat constructor; rewrite ?list_elem_of_In; simpl; intuition discriminate.
Defined.

(** ** The mail system does not steer the monitor *)

(** An iteration with another sender in place: the monitor moves the same
    way, and the two senders are handed the same alerts. *)
Lemma poll_swap_mail (L : N) (m : PRTGMonitor) (es : EmailSender) (server : Server) :
  ∃ es1 added added',
    poll L (with_email_sender m es) server = with_email_sender (poll L m server) es1
    ∧ sent (poll L m server) = (sent m ++ added)%list
    ∧ alerts es1 = (alerts es ++ added')%list
    ∧ map subject added = map subject added'
    ∧ enabled es1 = enabled es
    ∧ (enabled es = false →
       attempts es1 = attempts es ∧ Forall (λ a, outcome a = Skipped) added').
Proof.
  rewrite (poll_unfold L (with_email_sender m es)), (poll_unfold L m). cbv zeta.
  rewrite check_reading_mail, observed_mail. cbn [snd].
  pose proof (check_reading_keeps L m server) as (_ & He & _). cbv zeta in He.
  change (last_status (with_email_sender m es)) with (last_status m).
  change (email_sender (with_email_sender m es)) with es.
  change (config (with_email_sender m es)) with (config m).
  set (m1 := snd (check_reading L m server)) in *.
  assert (Hquiet : ∀ st,
    ∃ es1 added added',
      with_last_status (with_email_sender m1 es) st
      = with_email_sender (with_last_status m1 st) es1
      ∧ sent (with_last_status m1 st) = (sent m ++ added)%list
      ∧ alerts es1 = (alerts es ++ added')%list
      ∧ map subject added = map subject added'
      ∧ enabled es1 = enabled es
      ∧ (enabled es = false →
         attempts es1 = attempts es ∧ Forall (λ a, outcome a = Skipped) added')).
  { intros st. exists es, [], []. unfold sent. cbn. rewrite He, !app_nil_r. done. }
  destruct (observed L m server); [|apply Hquiet|apply Hquiet].
  destruct (decide _).
  - exists (snd (send_alert es (name server) (mapshow_url (config m) server) "錯誤")).
    eexists. eexists. split; [reflexivity|].
    unfold sent. cbn [email_sender with_last_status with_email_sender].
    rewrite !send_alert_alerts, send_alert_enabled.
    split; [reflexivity|]. split; [reflexivity|]. split; [reflexivity|].
    split; [reflexivity|]. intros Hoff. unfold send_alert, delivery.
    rewrite Hoff. cbn. split; [done|]. constructor; done.
  - exists es, [], []. unfold sent. rewrite He, !app_nil_r.
    destruct m1; done.
Qed.

Lemma polls_swap_mail (L : N) (seq : list Server) (m : PRTGMonitor) (es : EmailSender) :
  ∃ es1 added added',
    polls L seq (with_email_sender m es) = with_email_sender (polls L seq m) es1
    ∧ sent (polls L seq m) = (sent m ++ added)%list
    ∧ alerts es1 = (alerts es ++ added')%list
    ∧ map subject added = map subject added'
    ∧ enabled es1 = enabled es
    ∧ (enabled es = false →
       attempts es1 = attempts es ∧ Forall (λ a, outcome a = Skipped) added').
Proof.
  revert m es. induction seq as [|s seq IH]; intros m es.
  - exists es, [], []. rewrite !app_nil_r. destruct m; done.
  - rewrite !polls_cons.
    destruct (poll_swap_mail L m es s) as (es1 & a1 & a1' & -> & Hs1 & Ha1 & Hsub1 & Hen1 & Hoff1).
    destruct (IH (poll L m s) es1) as (es2 & a2 & a2' & -> & Hs2 & Ha2 & Hsub2 & Hen2 & Hoff2).
    exists es2, (a1 ++ a2)%list, (a1' ++ a2')%list.
    split; [done|]. rewrite Hs2, Hs1, Ha2, Ha1, <- !app_assoc, !map_app, Hsub1, Hsub2.
    split; [done|]. split; [done|]. split; [done|]. split; [congruence|].
    intros Hoff. destruct (Hoff1 Hoff) as [Hat1 Hsk1].
    destruct Hoff2 as [Hat2 Hsk2]; [congruence|].
    split; [congruence|]. apply Forall_app. done.
Qed.



(** * Further properties of the code *)

Import Observe.

(** ** Counting labels *)

Lemma sum_labels_nonneg (L : N) (elements : list WebElement) (total : Z) :
  sum_labels L elements = Some total → 0 ≤ total.
Proof.
  revert total. induction elements as [|el rest IH]; intros total.
  - intros [= <-]. done.
  - cbn [sum_labels]. destruct (text el) as [t|]; [|discriminate]. cbn.
    destruct (isdigit t); [|apply IH].
    destruct (int L t) as [n|] eqn:Hn; [|discriminate]. cbn.
    destruct (sum_labels L rest) as [s|]; [|discriminate]. cbn.
    intros [= <-]. destruct (int_decimal L t n Hn) as [_ Hn0].
    specialize (IH s eq_refl). lia.
Qed.

Lemma count_labels_bounds (L : N) (elements : list WebElement) :
  0 ≤ count_labels L elements
  ∧ (elements ≠ [] → 1 ≤ count_labels L elements).
Proof.
  unfold count_labels.
  assert (elements ≠ [] → 1 ≤ Z.of_nat (List.length elements)) as Hlen.
  { destruct elements; [done|]. cbn [List.length]. lia. }
  destruct (sum_labels L elements) as [total|] eqn:Hsum.
  - pose proof (sum_labels_nonneg L elements total Hsum).
    destruct (Z.eqb_spec total 0); (split; [lia|]); intros Hne;
      [by apply Hlen|lia].
  - split; [lia|done].
Qed.

(** X1.  The count computed for a list of indicator elements is never
    negative, and it is 0 only for the empty list: whatever the labels say
    (["0"], blanks, unreadable texts), at least one is counted as soon as
    there is an element. *)
Theorem count_zero_iff_empty (L : N) (elements : list WebElement) :
  0 ≤ count_labels L elements
  ∧ (count_labels L elements = 0 ↔ elements = []).
Proof.
  destruct (count_labels_bounds L elements) as [H0 H1].
  split; [done|]. split.
  - intros Hz. destruct elements as [|el rest]; [done|].
    assert (1 ≤ count_labels L (el :: rest)) by (apply H1; done). lia.
  - intros ->. reflexivity.
Qed.

(** ** What a status check reads, and what it asks the browser *)

(** The reading as a function of the page the network serves. *)
Lemma read_status_reading (L : N) (d : WebDriver) (url : string) :
  fst (read_status L d url) =
  match web d (visits d) url with
  | None => CheckFailed
  | Some p =>
      match matches p ".sensr" with
      | None => CheckFailed
      | Some sensr =>
          if nonempty sensr then Errors (count_labels L sensr)
          else
            match matches p ".sensy", matches p ".sensg" with
            | Some sensy, Some sensg =>
                Healthy (if nonempty sensg then count_labels L sensg else 0)
                        (if nonempty sensy then count_labels L sensy else 0)
            | _, _ => CheckFailed
            end
      end
  end.
Proof.
  unfold read_status, get, find_elements. cbn -[count_labels].
  destruct (web d (visits d) url) as [p|]; cbn -[count_labels]; [|done].
  destruct (matches p ".sensr") as [sensr|]; [|done].
  destruct (nonempty sensr); [done|].
  destruct (matches p ".sensy") as [sensy|]; [|done].
  destruct (matches p ".sensg") as [sensg|]; done.
Qed.

(** Closes a goal that assumes a page the network does not serve. *)
Ltac no_such_page :=
  let H := fresh in
  intros H; decompose [ex and] H; simplify_eq; cbn [severity]; congruence.

(** Splits the statement about the verdicts into its eight parts. *)
Ltac verdict_cases :=
  split; [split|split; [split|split; [split|split]]].


(** The calls a status check adds to the log of the browser. *)
Lemma read_status_shape (L : N) (d : WebDriver) (url : string) :
  let d' := snd (read_status L d url) in
  visits d' = S (visits d)
  ∧ web d' = web d ∧ sign_in d' = sign_in d ∧ quits d' = quits d
  ∧ ∃ n, (1 ≤ n ≤ 4)%nat
         ∧ calls d' = (calls d ++ firstn n (check_calls url))%list.
Proof.
  unfold read_status, get, find_elements. cbn -[count_labels firstn].
  destruct (web d (visits d) url) as [p|]; cbn -[count_labels firstn].
  2:{ do 4 (split; [done|]). exists 1%nat. split; [lia|done]. }
  destruct (matches p ".sensr") as [sensr|].
  2:{ do 4 (split; [done|]). exists 2%nat. split; [lia|].
      cbn. rewrite <- app_assoc. done. }
  destruct (nonempty sensr).
  { do 4 (split; [done|]). exists 2%nat. split; [lia|].
    cbn. rewrite <- app_assoc. done. }
  destruct (matches p ".sensy") as [sensy|].
  2:{ do 4 (split; [done|]). exists 3%nat. split; [lia|].
      cbn. rewrite <- !app_assoc. done. }
  destruct (matches p ".sensg") as [sensg|];
    (do 4 (split; [done|])); exists 4%nat; (split; [lia|]);
    cbn; rewrite <- !app_assoc; done.
Qed.

(** A non-empty prefix of those calls holds one page load. *)
Lemma gets_check_calls (n : nat) (url : string) (cs : list Call) :
  (1 ≤ n ≤ 4)%nat →
  gets (cs ++ firstn n (check_calls url)) = (gets cs ++ [url])%list.
Proof.
  intros Hn. unfold gets. rewrite flat_map_app. f_equal.
  destruct n as [|[|[|[|[|n]]]]]; try lia; reflexivity.
Qed.

(** X3.  One status check sends the browser to the address exactly once
    and then asks for [.sensr], [.sensy] and [.sensg] in that order, each at
    most once, stopping early when it has its answer: the calls it adds
    are a non-empty prefix of that list.  It does nothing else to the
    browser. *)
Theorem status_check_calls (L : N) (d : WebDriver) (url : string) :
  let d' := snd (read_status L d url) in
  visits d' = S (visits d)
  ∧ web d' = web d ∧ sign_in d' = sign_in d ∧ quits d' = quits d
  ∧ ∃ n, (1 ≤ n ≤ 4)%nat
         ∧ calls d' = (calls d ++ firstn n (check_calls url))%list
         ∧ gets (calls d') = (gets (calls d) ++ [url])%list.
Proof.
  cbv zeta.
  destruct (read_status_shape L d url) as (Hv & Hw & Hs & Hq & n & Hn & Hc).
  do 4 (split; [done|]). exists n. split; [done|]. split; [done|].
  rewrite Hc. by apply gets_check_calls.
Qed.


(** ** A whole cycle *)

Lemma poll_driver (L : N) (m : PRTGMonitor) (server : Server) :
  driver (poll L m server) = driver (snd (check_reading L m server)).
Proof.
  rewrite poll_unfold. cbv zeta.
  destruct (observed L m server); try destruct (decide _); done.
Qed.

Lemma check_reading_driver (L : N) (m : PRTGMonitor) (server : Server) (d : WebDriver) :
  driver m = Some d →
  driver (snd (check_reading L m server))
  = Some (snd (read_status L d (maponly_url (config m) server))).
Proof.
  intros Hd. unfold check_reading. rewrite Hd.
  destruct (read_status L d _) as [r d']. done.
Qed.

Lemma polls_page_loads (L : N) (seq : list Server) (m : PRTGMonitor) (d : WebDriver) :
  driver m = Some d →
  ∃ d', driver (polls L seq m) = Some d'
        ∧ visits d' = (visits d + List.length seq)%nat
        ∧ web d' = web d
        ∧ gets (calls d')
          = (gets (calls d) ++ map (maponly_url (config m)) seq)%list.
Proof.
  revert m d. induction seq as [|s seq IH]; intros m d Hd.
  - exists d. cbn. rewrite Nat.add_0_r, app_nil_r. done.
  - rewrite polls_cons.
    pose proof (read_status_shape L d (maponly_url (config m) s))
      as (Hv & Hw & _ & _ & n & Hn & Hc).
    pose proof (gets_check_calls n (maponly_url (config m) s) (calls d) Hn) as Hg.
    rewrite <- Hc in Hg.
    destruct (IH (poll L m s) _
                ltac:(rewrite poll_driver; by apply check_reading_driver))
      as (d' & Hd' & Hv' & Hw' & Hg').
    exists d'. split; [done|]. rewrite Hv', Hw', Hg', Hv, Hw, Hg, poll_config.
    cbn [List.length map]. rewrite <- app_assoc. split; [lia|done].
Qed.

(** X4.  With the browser open, a cycle of [check_all_servers] sends it to
    exactly one address per configured server, the [maponly.htm] address of
    that server's map, in configuration order; no server is skipped or
    visited twice, whatever the pages show and whatever fails. *)
Theorem cycle_page_loads (L : N) (m : PRTGMonitor) (d : WebDriver) :
  driver m = Some d →
  ∃ d', driver (snd (check_all_servers L m)) = Some d'
        ∧ visits d' = (visits d + List.length (servers (config m)))%nat
        ∧ web d' = web d
        ∧ gets (calls d')
          = (gets (calls d)
             ++ map (maponly_url (config m)) (servers (config m)))%list.
Proof.
  intros Hd. rewrite check_all_servers_polls. by apply polls_page_loads.
Qed.

Lemma cycle_page_loads_witness :
  let m := Demo.monitor [Demo.alpha; Demo.beta] None (λ _, true)
             [None; Some Demo.red] in
  ∃ d', driver (snd (check_all_servers 4300 m)) = Some d'
        ∧ visits d' = 2%nat
        ∧ gets (calls d')
          = ["https://prtg.example/controls/maponly.htm?id=2136";
             "https://prtg.example/controls/maponly.htm?id=2140"].
Proof.
  intros m.
  destruct (cycle_page_loads 4300 m
              (start (Demo.scripted [None; Some Demo.red]) Demo.landing true)
              eq_refl) as (d' & Hd & Hv & _ & Hg).
  exists d'. split; [exact Hd|]. split; [exact Hv|exact Hg].
Defined.

(** ** The result dictionary *)

Lemma check_server_pair (L : N) (results : gmap string Result)
    (m : PRTGMonitor) (server : Server) :
  check_server L (results, m) server
  = (<[name server := result_of L m server]> results, poll L m server).
Proof.
  rewrite <- (check_server_results L results m server).
  unfold check_server, _check_server_status, result_of, observed.
  destruct (check_reading L m server) as [r m1]. cbn [fst snd].
  destruct (describe r) as [c e] eqn:Hdesc. cbn [fst snd].
  destruct e; [|done]. destruct (decide _); [|done].
  destruct (send_alert _ _ _ _). done.
Qed.

Lemma fold_results_other (L : N) (seq : list Server)
    (results : gmap string Result) (m : PRTGMonitor) (n : string) :
  ¬ In n (map name seq) →
  fst (fold_left (check_server L) seq (results, m)) !! n = results !! n.
Proof.
  revert results m. induction seq as [|s seq IH]; intros results m Hn; [done|].
  cbn [fold_left]. rewrite check_server_pair, IH.
  - apply lookup_insert_ne. intros Heq. apply Hn. left. done.
  - intros Hin. apply Hn. right. done.
Qed.

Lemma fold_results (L : N) (seq : list Server)
    (results : gmap string Result) (m : PRTGMonitor) :
  let final := fst (fold_left (check_server L) seq (results, m)) in
  (∀ n, is_Some (final !! n) ↔ is_Some (results !! n) ∨ In n (map name seq))
  ∧ ∀ before s after,
      seq = (before ++ s :: after)%list →
      ¬ In (name s) (map name after) →
      final !! name s = Some (result_of L (polls L before m) s).
Proof.
  cbv zeta. revert results m.
  induction seq as [|s0 seq IH]; intros results m.
  - split; [intros n; cbn; tauto|].
    intros [|? ?] ? ? Heq; discriminate.
  - cbn [fold_left]. rewrite check_server_pair.
    destruct (IH (<[name s0 := result_of L m s0]> results) (poll L m s0))
      as [Hdom Hlast].
    split.
    + intros n. rewrite Hdom. cbn [map In].
      destruct (decide (name s0 = n)) as [<-|Hne].
      * rewrite lookup_insert_eq. split; [intros _|intros _; left; by eexists].
        right. left. done.
      * rewrite lookup_insert_ne by done. tauto.
    + intros before s after Heq Hfresh. destruct before as [|b before].
      * cbn in Heq. injection Heq as <- <-.
        rewrite fold_results_other by done. apply lookup_insert_eq.
      * cbn in Heq. injection Heq as <- ->.
        rewrite polls_cons. apply (Hlast before s after eq_refl Hfresh).
Qed.

(** X5.  The dictionary [check_all_servers] returns is keyed by server
    name: it has an entry for a name exactly when a configured server bears
    it, and the entry under a name is the one written by the last
    configured server of that name, holding that server's map, its
    [mapshow.htm] address and what its own status check reported.  An
    earlier server of the same name is checked, but its result is
    overwritten. *)
Theorem results_keyed_by_name (L : N) (m : PRTGMonitor) :
  let results := fst (check_all_servers L m) in
  (∀ n, is_Some (results !! n) ↔ In n (map name (servers (config m))))
  ∧ ∀ before s after,
      servers (config m) = (before ++ s :: after)%list →
      ¬ In (name s) (map name after) →
      results !! name s = Some (result_of L (polls L before m) s).
Proof.
  cbv zeta. unfold check_all_servers.
  destruct (fold_results L (servers (config m)) ∅ m) as [Hdom Hlast].
  split; [|done].
  intros n. rewrite Hdom, lookup_empty. split; [intros [[? ?]|?]; done|tauto].
Qed.

Lemma results_keyed_by_name_witness :
  let twin := {| name := "alpha"; map_id := 2140 |} in
  let m := Demo.monitor [Demo.alpha; twin] None (λ _, true)
             [Some Demo.red; Some Demo.green] in
  fst (check_all_servers 4300 m) !! "alpha"
  = Some {| result_map_id := 2140;
            result_map_url := "https://prtg.example/mapshow.htm?id=2140";
            color := "正常 (5個)"; is_error := false |}.
Proof.
  intros twin m.
  destruct (results_keyed_by_name 4300 m) as [_ Hlast].
  refine (eq_trans (Hlast [Demo.alpha] twin [] eq_refl _) _).
  - intros [].
  - vm_compute. reflexivity.
Defined.

(** ** The store and the sender over a run *)

(** What an iteration stores, in one equation. *)
Lemma poll_store (L : N) (m : PRTGMonitor) (server : Server) :
  last_status (poll L m server)
  = <[map_id server :=
        if decide (severity (observed L m server) = Error)
        then "error" else "normal"]> (last_status m).
Proof.
  destruct (decide (severity (observed L m server) = Error)) as [He|He].
  - destruct (decide (last_status m !! map_id server = Some "error")) as [Hl|Hl].
    + destruct (poll_standing_error L m server He Hl) as [_ ->].
      symmetry. by apply insert_id.
    + by destruct (poll_new_error L m server He Hl) as [_ ->].
  - by destruct (poll_no_error L m server He) as [_ ->].
Qed.

(** What an iteration does to the sender, in one equation. *)
Lemma poll_email_sender (L : N) (m : PRTGMonitor) (server : Server) :
  email_sender (poll L m server)
  = if decide (severity (observed L m server) = Error
               ∧ last_status m !! map_id server ≠ Some "error")
    then snd (send_alert (email_sender m) (name server)
                (mapshow_url (config m) server) "錯誤")
    else email_sender m.
Proof.
  rewrite poll_unfold. cbv zeta.
  pose proof (check_reading_keeps L m server) as (_ & He & _). cbv zeta in He.
  destruct (observed L m server) as [n|ok w|]; cbn [severity].
  - destruct (decide (last_status m !! map_id server ≠ Some "error")) as [Hl|Hl].
    + rewrite decide_True by done. done.
    + rewrite decide_False by (intros [_ ?]; done). done.
  - rewrite decide_False; [done|]. intros [? _]. destruct (0 <? w); done.
  - rewrite decide_False; [done|]. intros [? _]. done.
Qed.

Lemma cycles_polls (L : N) (n : nat) (m : PRTGMonitor) :
  cycles L n m = polls L (concat (repeat (servers (config m)) n)) m.
Proof.
  revert m. induction n as [|n IH]; intros m; [done|].
  cbn [cycles repeat concat]. rewrite polls_app, IH, check_all_servers_polls.
  rewrite polls_config. done.
Qed.

Lemma polls_store (L : N) (seq : list Server) (m : PRTGMonitor) :
  two_valued (last_status m) →
  two_valued (last_status (polls L seq m))
  ∧ ∀ k, is_Some (last_status (polls L seq m) !! k)
         ↔ is_Some (last_status m !! k) ∨ In k (map map_id seq).
Proof.
  revert m. induction seq as [|s seq IH]; intros m Hm.
  - split; [done|]. intros k. cbn. tauto.
  - rewrite polls_cons.
    assert (two_valued (last_status (poll L m s))) as Hm'.
    { rewrite poll_store. intros k v.
      destruct (decide (map_id s = k)) as [<-|Hne].
      - rewrite lookup_insert_eq. intros [= <-]. destruct (decide _); auto.
      - rewrite lookup_insert_ne by done. apply Hm. }
    destruct (IH (poll L m s) Hm') as [Htwo Hdom]. split; [done|].
    intros k. rewrite Hdom, poll_store. cbn [map In].
    destruct (decide (map_id s = k)) as [<-|Hne].
    + rewrite lookup_insert_eq. split; [intros _; right; left; done|].
      intros _. left. by eexists.
    + rewrite lookup_insert_ne by done. tauto.
Qed.

(** X6.  The status store only ever holds ['normal'] and ['error'], and
    nothing is ever removed from it: after any number of cycles it has an
    entry for every map it had one for, and, once a cycle has run, for
    every configured map and for no other. *)
Theorem store_after_cycles (L : N) (n : nat) (m : PRTGMonitor) :
  two_valued (last_status m) →
  two_valued (last_status (cycles L n m))
  ∧ ∀ k, is_Some (last_status (cycles L n m) !! k)
         ↔ is_Some (last_status m !! k)
           ∨ (n ≠ 0%nat ∧ In k (map map_id (servers (config m)))).
Proof.
  intros Hm. rewrite cycles_polls.
  destruct (polls_store L (concat (repeat (servers (config m)) n)) m Hm)
    as [Htwo Hdom].
  split; [done|]. intros k. rewrite Hdom.
  assert (In k (map map_id (concat (repeat (servers (config m)) n)))
          ↔ n ≠ 0%nat ∧ In k (map map_id (servers (config m)))) as Hin.
  { clear. induction n as [|n IHn]; [cbn; intuition lia|].
    cbn [repeat concat]. rewrite map_app, in_app_iff, IHn. intuition lia. }
  rewrite Hin. tauto.
Qed.

Lemma store_after_cycles_witness :
  let m := Demo.monitor [Demo.alpha; Demo.beta] None (λ _, true)
             [Some Demo.red; None; Some Demo.yellow; Some Demo.red] in
  two_valued (last_status (cycles 4300 2 m))
  ∧ is_Some (last_status (cycles 4300 2 m) !! map_id Demo.beta).
Proof.
  intros m.
  destruct (store_after_cycles 4300 2 m) as [Htwo Hdom].
  - intros k v H. vm_compute in H. discriminate.
  - split; [exact Htwo|]. apply Hdom. right. split; [lia|].
    right. left. reflexivity.
Defined.

(** X7.  After a cycle over servers with pairwise distinct names and
    pairwise distinct maps, the returned dictionary and the store agree:
    the entry of a server carries its map, and it is flagged as an error
    exactly when ['error'] is stored for that map, and not flagged exactly
    when ['normal'] is. *)
Theorem results_agree_with_store (L : N) (m : PRTGMonitor) (s : Server) :
  NoDup (map name (servers (config m))) →
  NoDup (map map_id (servers (config m))) →
  In s (servers (config m)) →
  ∃ r, fst (check_all_servers L m) !! name s = Some r
       ∧ result_map_id r = map_id s
       ∧ (is_error r = true
          ↔ last_status (snd (check_all_servers L m)) !! map_id s = Some "error")
       ∧ (is_error r = false
          ↔ last_status (snd (check_all_servers L m)) !! map_id s = Some "normal").
Proof.
  intros Hnames Hmaps Hin.
  destruct (in_split _ _ Hin) as (before & after & Hsplit).
  destruct (fold_results L (servers (config m)) ∅ m) as [_ Hlast].
  rewrite Hsplit, map_app in Hnames, Hmaps. cbn [map] in Hnames, Hmaps.
  apply NoDup_app in Hnames as (_ & _ & Hnames).
  apply NoDup_cons in Hnames as [Hname _].
  apply NoDup_app in Hmaps as (_ & _ & Hmaps).
  apply NoDup_cons in Hmaps as [Hmap _].
  exists (result_of L (polls L before m) s).
  split.
  { apply (Hlast before s after Hsplit).
    intros H. apply Hname. by apply list_elem_of_In. }
  split; [done|].
  rewrite check_all_servers_polls, Hsplit, polls_app, polls_cons.
  rewrite polls_other_entries.
  2:{ apply Forall_forall. intros x Hx Heq. apply Hmap. rewrite <- Heq.
      apply list_elem_of_In, in_map, list_elem_of_In. done. }
  rewrite poll_store, lookup_insert_eq. unfold result_of. cbn [is_error].
  destruct (observed L (polls L before m) s) as [n|ok w|]; cbn [describe snd severity].
  - rewrite decide_True by done. split; split; intros; done.
  - rewrite decide_False by (destruct (0 <? w); done). split; split; intros; done.
  - rewrite decide_False by done. split; split; intros; done.
Qed.

Lemma results_agree_with_store_witness :
  let m := Demo.monitor [Demo.alpha; Demo.beta] None (λ _, true)
             [Some Demo.green; Some Demo.red] in
  ∃ r, fst (check_all_servers 4300 m) !! "beta" = Some r
       ∧ (is_error r = true
          ↔ last_status (snd (check_all_servers 4300 m)) !! 2140 = Some "error").
Proof.
  intros m.
  destruct (results_agree_with_store 4300 m Demo.beta)
    as (r & Hr & _ & Herr & _).
  - vm_compute. repeat constructor; rewrite ?list_elem_of_In; simpl;
      intuition discriminate.
  - vm_compute. repeat constructor; rewrite ?list_elem_of_In; simpl;
      intuition discriminate.
  - right. left. reflexivity.
  - exists r. split; [exact Hr|exact Herr].
Defined.

Lemma error_count_cons (r : Reading) (rs : list Reading) :
  error_count (r :: rs)
  = ((if decide (severity r = Error) then 1 else 0) + error_count rs)%nat.
Proof.
  unfold error_count. destruct (decide (severity r = Error)) as [He|He].
  - rewrite filter_cons_True by done. done.
  - rewrite filter_cons_False by done. done.
Qed.

(** X8.  Over any sequence of polls the sender is handed alerts one after
    the other and never loses one; there are never more new alerts than
    polls that read an error, and each of them names a polled server,
    links to that server's [mapshow.htm] address (not the [maponly.htm]
    address that was checked) and carries the fixed status text. *)
Theorem alerts_over_a_run (L : N) (seq : list Server) (m : PRTGMonitor) :
  ∃ added,
    sent (polls L seq m) = (sent m ++ added)%list
    ∧ (List.length added ≤ error_count (readings L seq m))%nat
    ∧ Forall (λ a, ∃ s, In s seq
                        ∧ subject a = (name s, mapshow_url (config m) s, "錯誤"))
        added.
Proof.
  revert m. induction seq as [|s seq IH]; intros m.
  - exists []. rewrite app_nil_r. cbn. split; [done|]. split; [lia|constructor].
  - rewrite polls_cons. cbn [readings]. rewrite error_count_cons.
    destruct (IH (poll L m s)) as (added & Hsent & Hlen & Hall).
    assert (Hall' : Forall (λ a, ∃ s0, In s0 (s :: seq)
                     ∧ subject a = (name s0, mapshow_url (config m) s0, "錯誤"))
                     added).
    { eapply Forall_impl; [exact Hall|].
      intros a (s0 & Hin & Hsub). exists s0. split; [by right|].
      rewrite Hsub, poll_config. done. }
    unfold sent in *. rewrite Hsent, poll_email_sender.
    destruct (decide (severity (observed L m s) = Error
                      ∧ last_status m !! map_id s ≠ Some "error")) as [[He Hl]|Hno].
    + rewrite send_alert_alerts, <- app_assoc.
      eexists. split; [reflexivity|]. rewrite decide_True by done.
      split; [cbn; lia|]. constructor; [|done].
      exists s. split; [by left|done].
    + exists added. split; [done|]. split; [|done].
      destruct (decide (severity (observed L m s) = Error)); lia.
Qed.

(** X9.  With an enabled sender every alert costs exactly one delivery
    attempt, made when the alert is raised and never repeated: over any
    sequence of polls the number of attempts grows by the number of new
    alerts, and the [i]-th new alert is marked sent or failed according to
    the [i]-th attempt alone. *)
Theorem one_attempt_per_alert (L : N) (seq : list Server) (m : PRTGMonitor) :
  enabled (email_sender m) = true →
  let es := email_sender m in
  let es' := email_sender (polls L seq m) in
  ∃ added,
    alerts es' = (alerts es ++ added)%list
    ∧ attempts es' = (attempts es + List.length added)%nat
    ∧ map outcome added
      = map (λ i, if smtp es (attempts es + i) then Sent else Failed)
          (List.seq 0 (List.length added)).
Proof.
  cbv zeta. revert m. induction seq as [|s seq IH]; intros m Hon.
  - exists []. cbn. rewrite app_nil_r, Nat.add_0_r. done.
  - rewrite polls_cons.
    assert (Hstep : email_sender (poll L m s) = email_sender m
                    ∨ email_sender (poll L m s)
                      = snd (send_alert (email_sender m) (name s)
                               (mapshow_url (config m) s) "錯誤")).
    { rewrite poll_email_sender. destruct (decide _); auto. }
    destruct Hstep as [Hsame|Hsend].
    + destruct (IH (poll L m s)) as (added & Ha & Hn & Ho); [by rewrite Hsame|].
      rewrite Hsame in *. exists added. done.
    + destruct (IH (poll L m s)) as (added & Ha & Hn & Ho).
      { rewrite Hsend, send_alert_enabled. done. }
      rewrite Hsend in Ha, Hn, Ho. rewrite send_alert_alerts in Ha.
      unfold send_alert in Hn, Ho. unfold delivery in Ha.
      rewrite Hon in *. cbn in Hn, Ho, Ha.
      eexists (_ :: added). rewrite Ha, <- app_assoc. split; [done|].
      split; [cbn; lia|].
      cbn [List.length List.seq map outcome]. rewrite Nat.add_0_r. f_equal.
      rewrite Ho, <- seq_shift, map_map.
      apply map_ext. intros i. by rewrite Nat.add_succ_r.
Qed.

Lemma one_attempt_per_alert_witness :
  let m := Demo.monitor [Demo.alpha] (Some "mail.example")
             (λ n, Nat.eqb n 1)
             [Some Demo.red; Some Demo.green; Some Demo.red; Some Demo.red] in
  let es' := email_sender (cycles 4300 4 m) in
  attempts es' = 2%nat ∧ map outcome (alerts es') = [Failed; Sent].
Proof.
  intros m es'.
  destruct (one_attempt_per_alert 4300 (repeat Demo.alpha 4) m eq_refl)
    as (added & Ha & Hn & Ho).
  assert (List.length added = 2%nat) as Hlen.
  { change (alerts (email_sender m)) with (@nil Alert) in Ha.
    cbn [app] in Ha. rewrite <- Ha. vm_compute. reflexivity. }
  unfold es'. rewrite (cycles_single 4300 4 m Demo.alpha eq_refl).
  split.
  - rewrite Hn, Hlen. reflexivity.
  - rewrite Ha, map_app, Ho, Hlen. reflexivity.
Defined.

(** ** Logging in and the two modes *)

Lemma lower_app (s t : string) : lower (s ++ t) = lower s ++ lower t.
Proof.
  induction s as [|c s IH]; [done|].
  change (String (char_lower c) (lower (s ++ t))
          = String (char_lower c) (lower s ++ lower t)).
  f_equal. exact IH.
Qed.

Lemma prefix_app (p s : string) : String.prefix p (p ++ s) = true.
Proof.
  induction p as [|c p IH]; simpl; [by destruct s|].
  destruct (ascii_dec c c); [done|congruence].
Qed.

Lemma contains_prefix (needle s : string) :
  String.prefix needle s = true → contains needle s = true.
Proof. intros H. destruct s; cbn [contains]; rewrite H; done. Qed.

Lemma contains_app (needle pre post : string) :
  contains needle (pre ++ needle ++ post) = true.
Proof.
  induction pre as [|c pre IH].
  - apply contains_prefix. exact (prefix_app needle post).
  - change (contains needle (String c (pre ++ needle ++ post)) = true).
    cbn [contains]. rewrite IH. apply orb_true_r.
Qed.

(** X10.  [_login] answers [False] whenever the address shown after the
    form is submitted contains [login] in any mix of upper and lower case,
    anywhere in it, the host name included; it also answers [False]
    without a browser and when the login page cannot be loaded. *)
Theorem login_rejects_login_address (m : PRTGMonitor) :
  (driver m = None → fst (_login m) = false)
  ∧ (∀ d, driver m = Some d →
          web d (visits d) (login_url (config m)) = None →
          fst (_login m) = false)
  ∧ ∀ d pre w post,
      driver m = Some d →
      sign_in d (username (config m)) (password (config m))
      = Some (pre ++ w ++ post) →
      lower w = "login" →
      fst (_login m) = false.
Proof.
  unfold _login. split; [|split].
  - intros ->. done.
  - intros d -> Hweb. unfold get. cbn. rewrite Hweb. done.
  - intros d pre w post -> Hform Hw. unfold get. cbn.
    destruct (web d (visits d) (login_url (config m))); cbn; [|done].
    rewrite Hform. cbn. rewrite !lower_app, Hw, contains_app. done.
Qed.

Lemma login_rejects_login_address_witness :
  let m := with_driver (init (Demo.cfg [Demo.alpha] None) (λ _, true))
             (Some (start (Demo.scripted [Some blank])
                      (λ _ _, Some "https://LogIn.example/welcome.htm") true)) in
  fst (_login m) = false.
Proof.
  intros m.
  destruct (login_rejects_login_address m) as (_ & _ & Hurl).
  apply (Hurl (start (Demo.scripted [Some blank])
                 (λ _ _, Some "https://LogIn.example/welcome.htm") true)
           "https://" "LogIn" ".example/welcome.htm"); reflexivity.
Defined.

(** What [_login] leaves alone. *)
Lemma login_keeps (m : PRTGMonitor) :
  config (snd (_login m)) = config m
  ∧ email_sender (snd (_login m)) = email_sender m
  ∧ last_status (snd (_login m)) = last_status m.
Proof.
  unfold _login. destruct (driver m) as [d|]; [|done].
  unfold get. cbn.
  destruct (web d (visits d) (login_url (config m))); cbn;
    [destruct (sign_in d _ _)|]; done.
Qed.

(** What [_login] asks of the browser. *)
Lemma login_driver (m : PRTGMonitor) (d : WebDriver) :
  driver m = Some d →
  ∃ d', driver (snd (_login m)) = Some d'
        ∧ visits d' = S (visits d)
        ∧ calls d' = (calls d ++ [Get (login_url (config m))])%list.
Proof.
  intros Hd. unfold _login. rewrite Hd. unfold get. cbn.
  destruct (web d (visits d) (login_url (config m))); cbn;
    [destruct (sign_in d _ _)|]; cbn; eexists; done.
Qed.

(** X11.  [_login] touches nothing but the browser: the configuration, the
    sender and the status store are left as they were, and the browser is
    sent to the login address of the configured base address exactly
    once. *)
Theorem login_only_loads_login_page (m : PRTGMonitor) :
  let m' := snd (_login m) in
  config m' = config m ∧ email_sender m' = email_sender m
  ∧ last_status m' = last_status m
  ∧ match driver m with
    | None => driver m' = None
    | Some d =>
        ∃ d', driver m' = Some d'
              ∧ visits d' = S (visits d)
              ∧ calls d' = (calls d ++ [Get (base_url (config m) ++ "/public/login.htm")])%list
    end.
Proof.
  cbv zeta. destruct (login_keeps m) as (Hc & He & Hl).
  do 3 (split; [done|]).
  destruct (driver m) as [d|] eqn:Hd.
  - exact (login_driver m d Hd).
  - unfold _login. rewrite Hd. exact Hd.
Qed.

Lemma cycles_quits (L : N) (n : nat) (m : PRTGMonitor) :
  option_map quits (driver (cycles L n m)) = option_map quits (driver m).
Proof. rewrite cycles_polls. apply polls_quits. Qed.



(** X13.  When logging in fails, in either mode, the program checks no
    server at all: it ends with an empty status store and no alert, and
    the only address the browser was sent to is the login page. *)
Theorem failed_login_checks_nothing (L : N) (args : Args) (env : Environment)
    (k : nat) (cfg : Config) :
  files env (config_path args) = Some (Some cfg) →
  chrome_starts env = true →
  fst (_login (with_driver (init cfg (mail env))
                 (Some (start (network env) (login_form env) (chrome_quits env)))))
  = false →
  ∃ m d, snd (main L args env k) = Some m
         ∧ last_status m = ∅ ∧ sent m = []
         ∧ driver m = Some d ∧ calls d = [Get (login_url cfg)].
Proof.
  intros Hfile Hstart Hlogin. unfold main. rewrite Hfile.
  assert (Hmode : (if test_mode args then test L env (init cfg (mail env))
                   else run L env k (init cfg (mail env)))
                  = close (snd (_login (with_driver (init cfg (mail env))
                      (Some (start (network env) (login_form env) (chrome_quits env))))))).
  { unfold test, run, _init_browser. rewrite Hstart.
    destruct (_login _) as [logged_in m]. cbn [fst snd] in *. subst logged_in.
    destruct (test_mode args); done. }
  rewrite Hmode.
  destruct (login_keeps (with_driver (init cfg (mail env))
    (Some (start (network env) (login_form env) (chrome_quits env)))))
    as (_ & He & Hl).
  destruct (login_driver (with_driver (init cfg (mail env))
    (Some (start (network env) (login_form env) (chrome_quits env)))) _ eq_refl)
    as (d & Hd & _ & Hc).
  set (m := snd (_login _)) in *.
  exists m, d. unfold sent. rewrite He, Hl.
  assert (snd (match close m with
               | Returns m0 => (0, Some m0)
               | Raises m0 => (1, Some m0)
               end) = Some m) as ->.
  { unfold close. destruct (driver m) as [d0|]; [destruct (quits d0)|]; done. }
  done.
Qed.

Lemma failed_login_checks_nothing_witness :
  ∃ m d, snd (main 4300 Demo.args_test
                (Demo.env Demo.rejected [Demo.alpha] [Some blank; Some Demo.red]) 0)
         = Some m
         ∧ last_status m = ∅ ∧ sent m = []
         ∧ driver m = Some d
         ∧ calls d = [Get "https://prtg.example/public/login.htm"].
Proof.
  apply (failed_login_checks_nothing 4300 Demo.args_test
           (Demo.env Demo.rejected [Demo.alpha] [Some blank; Some Demo.red]) 0
           (Demo.cfg [Demo.alpha] (Some "mail.example")));
    reflexivity.
Defined.

(** ** [_hex_to_rgb] *)

Lemma format_02x_decodes (v : Z) :
  0 ≤ v ≤ 255 →
  ∃ a b, format_02x v = String a (String b "")
         ∧ Ascii.eqb "#" a = false
         ∧ int16 (String a (String b "")) = Some v.
Proof.
  intros Hv.
  assert (Hall : forallb (λ n,
            match format_02x (Z.of_nat n) with
            | String a (String b EmptyString) =>
                negb (Ascii.eqb "#" a)
                && match int16 (String a (String b "")) with
                   | Some w => w =? Z.of_nat n
                   | None => false
                   end
            | _ => false
            end) (seq 0 256) = true) by (vm_compute; reflexivity).
  rewrite forallb_forall in Hall.
  specialize (Hall (Z.to_nat v) ltac:(apply in_seq; lia)).
  rewrite Z2Nat.id in Hall by lia.
  destruct (format_02x v) as [|a [|b [|? ?]]]; try discriminate.
  exists a, b. apply andb_prop in Hall as [Ha Hb].
  destruct (int16 (String a (String b ""))) as [w|]; [|discriminate].
  apply Z.eqb_eq in Hb. subst w.
  split; [done|]. split; [|done]. by destruct (Ascii.eqb "#" a).
Qed.

Lemma lstrip_hashes (n : nat) (c : ascii) (s : string) :
  Ascii.eqb "#" c = false →
  lstrip_char "#" (hashes n ++ String c s) = String c s.
Proof.
  intros Hc. unfold lstrip_char. induction n as [|n IH].
  - change (drop_while (Ascii.eqb "#") (String c s) = String c s).
    cbn [drop_while]. rewrite Hc. done.
  - change (drop_while (Ascii.eqb "#") (String "#" (hashes n ++ String c s))
            = String c s).
    cbn [drop_while]. rewrite Ascii.eqb_refl. exact IH.
Qed.

(** X14.  [_hex_to_rgb] undoes the encoding [_parse_color] produces: for
    channels from 0 to 255, the three two-digit fields written by
    [_parse_color] are read back as the same three numbers, however many
    number signs precede them and whatever follows the sixth digit. *)
Theorem hex_to_rgb_reads_back (r g b : Z) (n : nat) (rest : string) :
  0 ≤ r ≤ 255 → 0 ≤ g ≤ 255 → 0 ≤ b ≤ 255 →
  _hex_to_rgb (hashes n ++ format_02x r ++ format_02x g ++ format_02x b ++ rest)
  = Some (r, g, b).
Proof.
  intros Hr Hg Hb.
  destruct (format_02x_decodes r Hr) as (r1 & r2 & -> & Hhash & Er).
  destruct (format_02x_decodes g Hg) as (g1 & g2 & -> & _ & Eg).
  destruct (format_02x_decodes b Hb) as (b1 & b2 & -> & _ & Eb).
  unfold _hex_to_rgb.
  change (String r1 (String r2 "") ++ String g1 (String g2 "")
          ++ String b1 (String b2 "") ++ rest)
    with (String r1 (String r2 (String g1 (String g2
            (String b1 (String b2 rest)))))).
  rewrite lstrip_hashes by done.
  change (slice2 (String r1 _) 0) with (String r1 (String r2 "")).
  change (slice2 (String r1 (String r2 (String g1 (String g2
            (String b1 (String b2 rest)))))) 2)
    with (String g1 (String g2 "")).
  change (slice2 (String r1 (String r2 (String g1 (String g2
            (String b1 (String b2 rest)))))) 4)
    with (String b1 (String b2 "")).
  rewrite Er, Eg, Eb. done.
Qed.

Lemma hex_to_rgb_reads_back_witness :
  _hex_to_rgb ("##" ++ format_02x 227 ++ format_02x 6 ++ format_02x 19 ++ "ff")
  = Some (227, 6, 19).
Proof. apply (hex_to_rgb_reads_back 227 6 19 2 "ff"); lia. Defined.

(** X15.  [_hex_to_rgb] raises on every value that has fewer than five
    characters after its leading number signs, the three-digit colours such
    as [#fff] among them: the third field is then empty. *)
Theorem hex_to_rgb_short_input (hex_color : string) :
  (String.length (lstrip_char "#" hex_color) ≤ 4)%nat →
  _hex_to_rgb hex_color = None.
Proof.
  intros Hlen. unfold _hex_to_rgb.
  assert (slice2 (lstrip_char "#" hex_color) 4 = "") as ->.
  { destruct (lstrip_char "#" hex_color) as [|? [|? [|? [|? [|? ?]]]]];
      cbn in Hlen; try lia; reflexivity. }
  destruct (int16 (slice2 _ 0)); [|reflexivity].
  destruct (int16 (slice2 _ 2)); reflexivity.
Qed.

Lemma hex_to_rgb_short_input_witness : _hex_to_rgb "#fff" = None.
Proof. apply hex_to_rgb_short_input. cbn. lia. Defined.

Lemma hex_digit_value_bounds (c : ascii) (x : Z) :
  hex_digit_value c = Some x → 0 ≤ x ≤ 15.
Proof.
  unfold hex_digit_value, in_range.
  repeat match goal with
         | |- context [(?a <=? ?b)%N] => destruct (N.leb_spec a b)
         end; cbn; intros [= <-]; lia.
Qed.

Lemma int16_bounds (s : string) (v : Z) : int16 s = Some v → -15 ≤ v ≤ 255.
Proof.
  destruct s as [|a [|b [|? ?]]]; cbn [int16]; try discriminate.
  - intros H. apply hex_digit_value_bounds in H. lia.
  - destruct (hex_digit_value a) as [x|] eqn:Ha;
      destruct (hex_digit_value b) as [y|] eqn:Hb;
      try apply hex_digit_value_bounds in Ha;
      try apply hex_digit_value_bounds in Hb.
    + intros [= <-]. lia.
    + destruct (int_isspace b); [|discriminate]. intros [= <-]. lia.
    + destruct (_ || _); [intros [= <-]; lia|].
      destruct (Ascii.eqb a "-"); [|discriminate]. intros [= <-]. lia.
    + discriminate.
Qed.

(** X16.  Whatever [_hex_to_rgb] returns, each of the three numbers lies
    between -15 and 255: a field is at most two hexadecimal digits, and a
    field made of a minus sign and one digit is accepted and gives a
    negative channel. *)
Theorem hex_to_rgb_range (hex_color : string) (r g b : Z) :
  _hex_to_rgb hex_color = Some (r, g, b) →
  -15 ≤ r ≤ 255 ∧ -15 ≤ g ≤ 255 ∧ -15 ≤ b ≤ 255.
Proof.
  unfold _hex_to_rgb.
  destruct (int16 (slice2 _ 0)) as [r'|] eqn:Hr; [|discriminate].
  destruct (int16 (slice2 _ 2)) as [g'|] eqn:Hg; [|discriminate].
  destruct (int16 (slice2 _ 4)) as [b'|] eqn:Hb; [|discriminate].
  cbn. intros [= <- <- <-].
  apply int16_bounds in Hr, Hg, Hb. done.
Qed.

Lemma hex_to_rgb_range_witness :
  _hex_to_rgb "#0f-f f" = Some (15, -15, 15)
  ∧ -15 ≤ 15 ≤ 255 ∧ -15 ≤ -15 ≤ 255 ∧ -15 ≤ 15 ≤ 255.
Proof.
  split; [reflexivity|].
  apply (hex_to_rgb_range "#0f-f f" 15 (-15) 15). reflexivity.
Defined.

Lemma lower_drop_while (p : ascii → bool) (s : string) :
  (∀ c, p (char_lower c) = p c) →
  lower (drop_while p s) = drop_while p (lower s).
Proof.
  intros Hp. induction s as [|c s IH]; [done|].
  cbn [drop_while lower]. rewrite Hp. destruct (p c); done.
Qed.

Lemma lower_drop (n : nat) (s : string) : lower (drop n s) = drop n (lower s).
Proof.
  revert s. induction n as [|n IH]; intros s; [done|].
  destruct s as [|c s]; [done|]. cbn [drop lower]. apply IH.
Qed.

Lemma lower_take_chars (n : nat) (s : string) :
  lower (take_chars n s) = take_chars n (lower s).
Proof.
  revert s. induction n as [|n IH]; intros s; [done|].
  destruct s as [|c s]; [done|]. cbn [take_chars lower]. by rewrite IH.
Qed.

Lemma int16_lower (s : string) : int16 (lower s) = int16 s.
Proof.
  assert (Hh : ∀ c, hex_digit_value (char_lower c) = hex_digit_value c).
  { intros c. destruct c as [[] [] [] [] [] [] [] []]; vm_compute; reflexivity. }
  assert (Hs : ∀ c, int_isspace (char_lower c) = int_isspace c).
  { intros c. destruct c as [[] [] [] [] [] [] [] []]; vm_compute; reflexivity. }
  assert (Hp : ∀ c, Ascii.eqb (char_lower c) "+" = Ascii.eqb c "+").
  { intros c. destruct c as [[] [] [] [] [] [] [] []]; vm_compute; reflexivity. }
  assert (Hm : ∀ c, Ascii.eqb (char_lower c) "-" = Ascii.eqb c "-").
  { intros c. destruct c as [[] [] [] [] [] [] [] []]; vm_compute; reflexivity. }
  destruct s as [|a [|b [|c s]]]; cbn [lower int16]; [done|apply Hh| |done].
  rewrite !Hh, !Hs, Hp, Hm. done.
Qed.

(** X17.  [_hex_to_rgb] does not look at letter case: a value and its
    lowercased form give the same channels, or both raise. *)
Theorem hex_to_rgb_ignores_case (hex_color : string) :
  _hex_to_rgb (lower hex_color) = _hex_to_rgb hex_color.
Proof.
  unfold _hex_to_rgb, lstrip_char, slice2.
  rewrite <- lower_drop_while.
  2:{ intros c. destruct c as [[] [] [] [] [] [] [] []]; vm_compute; reflexivity. }
  rewrite <- !lower_drop, <- !lower_take_chars, !int16_lower. done.
Qed.

(** ** [_parse_color] once more *)

Lemma append_assoc (s t u : string) : (s ++ t) ++ u = s ++ t ++ u.
Proof.
  induction s as [|c s IH]; [done|].
  change (String c ((s ++ t) ++ u) = String c (s ++ t ++ u)). by rewrite IH.
Qed.

Lemma append_empty_r (s : string) : s ++ "" = s.
Proof.
  induction s as [|c s IH]; [done|].
  change (String c (s ++ "") = String c s). by rewrite IH.
Qed.

Lemma rev_onto_app (s acc : string) : rev_onto s acc = reverse s ++ acc.
Proof.
  unfold reverse. revert acc. induction s as [|c s IH]; intros acc; [done|].
  cbn [rev_onto]. rewrite (IH (String c acc)), (IH (String c "")).
  rewrite append_assoc. done.
Qed.

Lemma reverse_cons (c : ascii) (s : string) :
  reverse (String c s) = reverse s ++ String c "".
Proof. unfold reverse at 1. cbn [rev_onto]. apply rev_onto_app. Qed.

Lemma reverse_app (s t : string) : reverse (s ++ t) = reverse t ++ reverse s.
Proof.
  induction s as [|c s IH].
  - change ("" ++ t) with t. by rewrite append_empty_r.
  - change (String c s ++ t) with (String c (s ++ t)).
    rewrite !reverse_cons, IH, append_assoc. done.
Qed.

Lemma reverse_involutive (s : string) : reverse (reverse s) = s.
Proof.
  induction s as [|c s IH]; [done|].
  rewrite reverse_cons, reverse_app, IH. done.
Qed.

Lemma all_chars_reverse (p : ascii → bool) (s : string) :
  all_chars p (reverse s) = all_chars p s.
Proof.
  induction s as [|c s IH]; [done|].
  rewrite reverse_cons, all_chars_app, IH. cbn [all_chars].
  rewrite andb_true_r. apply andb_comm.
Qed.

Lemma lower_reverse (s : string) : lower (reverse s) = reverse (lower s).
Proof.
  induction s as [|c s IH]; [done|].
  cbn [lower]. rewrite !reverse_cons, lower_app, IH. done.
Qed.

Lemma drop_while_starts (p : ascii → bool) (s : string) :
  starts_outside p (drop_while p s) = true.
Proof.
  induction s as [|c s IH]; [done|].
  cbn [drop_while]. destruct (p c) eqn:Hc; [done|]. cbn. by rewrite Hc.
Qed.

Lemma drop_while_id (p : ascii → bool) (s : string) :
  starts_outside p s = true → drop_while p s = s.
Proof.
  destruct s as [|c s]; [done|]. cbn. by destruct (p c).
Qed.

Lemma take_drop_while (p : ascii → bool) (s : string) :
  take_while p s ++ drop_while p s = s.
Proof.
  induction s as [|c s IH]; [done|].
  cbn [take_while drop_while]. destruct (p c); [|done].
  change (String c (take_while p s ++ drop_while p s) = String c s).
  by rewrite IH.
Qed.

(** What [strip] returns starts and ends outside the blanks. *)
Lemma strip_starts (s : string) :
  starts_outside char_isspace (strip s) = true.
Proof.
  unfold strip.
  set (a := drop_while char_isspace s).
  assert (Ha : starts_outside char_isspace a = true) by apply drop_while_starts.
  pose proof (take_drop_while char_isspace (reverse a)) as Hsplit.
  apply (f_equal reverse) in Hsplit.
  rewrite reverse_app, reverse_involutive in Hsplit.
  destruct (reverse (drop_while char_isspace (reverse a))) as [|c x]; [done|].
  rewrite <- Hsplit in Ha. exact Ha.
Qed.

Lemma strip_idempotent (s : string) : strip (strip s) = strip s.
Proof.
  pose proof (strip_starts s) as Hstart. unfold strip at 1.
  rewrite (drop_while_id _ _ Hstart). unfold strip.
  rewrite reverse_involutive.
  rewrite (drop_while_id _ (drop_while _ _)) by apply drop_while_starts. done.
Qed.

Lemma lower_strip (s : string) : lower (strip s) = strip (lower s).
Proof.
  assert (Hsp : ∀ c, char_isspace (char_lower c) = char_isspace c).
  { intros c. destruct c as [[] [] [] [] [] [] [] []]; vm_compute; reflexivity. }
  unfold strip.
  rewrite lower_reverse, lower_drop_while, lower_reverse, lower_drop_while by done.
  done.
Qed.

Lemma lower_idempotent (s : string) : lower (lower s) = lower s.
Proof.
  induction s as [|c s IH]; [done|]. cbn [lower]. rewrite IH. f_equal.
  destruct c as [[] [] [] [] [] [] [] []]; vm_compute; reflexivity.
Qed.

(** Trimming and lowercasing a second time changes nothing. *)
Lemma normal_form_fixed (s : string) :
  lower (strip (lower (strip s))) = lower (strip s).
Proof. by rewrite <- lower_strip, strip_idempotent, lower_idempotent. Qed.

Lemma settled_fixed (s : string) :
  all_chars settled s = true → lower (strip s) = s.
Proof.
  intros Hs.
  assert (Hsp : ∀ t, all_chars settled t = true →
                     starts_outside char_isspace t = true).
  { intros [|c t]; [done|]. cbn. unfold settled.
    intros H. apply andb_prop in H as [H _]. apply andb_prop in H as [H _].
    exact H. }
  assert (strip s = s) as ->.
  { unfold strip. rewrite (drop_while_id _ s) by (by apply Hsp).
    rewrite drop_while_id, reverse_involutive; [done|].
    apply Hsp. by rewrite all_chars_reverse. }
  induction s as [|c s IH]; [done|].
  cbn [all_chars] in Hs. apply andb_prop in Hs as [Hc Hs].
  cbn [lower]. rewrite (IH Hs). f_equal.
  unfold settled in Hc. apply andb_prop in Hc as [_ Hc].
  by apply Ascii.eqb_eq in Hc.
Qed.

Lemma all_chars_impl (p q : ascii → bool) (s : string) :
  (∀ c, p c = true → q c = true) →
  all_chars p s = true → all_chars q s = true.
Proof.
  intros Hpq. induction s as [|c s IH]; [done|]. cbn.
  intros H. apply andb_prop in H as [Hc Hs]. by rewrite (Hpq c Hc), IH.
Qed.

Lemma hex_chars (n : N) : all_chars is_lower_hex (hex n) = true.
Proof.
  unfold hex.
  assert (H : ∀ u, all_chars is_lower_hex
                     (HexadecimalString.NilEmpty.string_of_uint u) = true).
  { induction u; cbn [HexadecimalString.NilEmpty.string_of_uint all_chars];
      rewrite ?IHu; reflexivity. }
  unfold HexadecimalString.NilZero.string_of_uint.
  destruct (N.to_hex_uint n); try apply H. reflexivity.
Qed.

Lemma format_02x_chars (v : Z) :
  0 ≤ v → all_chars is_lower_hex (format_02x v) = true.
Proof.
  intros Hv. unfold format_02x.
  destruct (Z.ltb_spec v 0); [lia|].
  destruct (_ <? _)%nat; [|apply hex_chars].
  change ("0" ++ hex (Z.to_N v)) with (String "0" (hex (Z.to_N v))).
  cbn [all_chars]. rewrite hex_chars. reflexivity.
Qed.

(** X18.  [_parse_color] is idempotent: whatever it returns, be it a
    lowercased [#] value, the encoding of an [rgb] value or an unrecognised
    value passed through, it returns unchanged when given it again. *)
Theorem parse_color_idempotent (L : N) (color_str canonical : string) :
  _parse_color L color_str = Some canonical →
  _parse_color L canonical = Some canonical.
Proof.
  unfold _parse_color at 1.
  destruct (startswith (lower (strip color_str)) "#") eqn:Hhash.
  { intros [= <-]. unfold _parse_color. rewrite normal_form_fixed, Hhash. done. }
  destruct (rgb_match (lower (strip color_str))) as [[[r g] b]|] eqn:Hmatch.
  2:{ intros [= <-]. unfold _parse_color.
      rewrite normal_form_fixed, Hhash, Hmatch. done. }
  destruct (int L r) as [rv|] eqn:Hr; [|discriminate].
  destruct (int L g) as [gv|] eqn:Hg; [|discriminate].
  destruct (int L b) as [bv|] eqn:Hb; [|discriminate].
  cbn [mbind option_bind]. intros [= <-].
  destruct (int_decimal L r rv Hr) as [_ Hr0].
  destruct (int_decimal L g gv Hg) as [_ Hg0].
  destruct (int_decimal L b bv Hb) as [_ Hb0].
  unfold _parse_color. rewrite settled_fixed.
  { assert (∀ x, startswith ("#" ++ x) "#" = true) as ->; [|done].
    intros x. unfold startswith.
    change (String.prefix "#" (String "#" x) = true).
    cbn [String.prefix]. destruct (ascii_dec "#" "#"); [|congruence].
    by destruct x. }
  change ("#" ++ ?x) with (String "#" x). cbn [all_chars].
  rewrite !all_chars_app.
  assert (Hset : ∀ v, 0 ≤ v → all_chars settled (format_02x v) = true).
  { intros v Hv. apply (all_chars_impl is_lower_hex); [|by apply format_02x_chars].
    intros c. destruct c as [[] [] [] [] [] [] [] []]; vm_compute; congruence. }
  rewrite !Hset by done. reflexivity.
Qed.

Lemma parse_color_idempotent_witness :
  _parse_color 4300 "#e30613" = Some "#e30613"
  ∧ _parse_color 4300 "hsl(0, 100%, 50%)" = Some "hsl(0, 100%, 50%)".
Proof.
  split.
  - apply (parse_color_idempotent 4300 " RGBA(227, 6, 19, 1) "). reflexivity.
  - apply (parse_color_idempotent 4300 " HSL(0, 100%, 50%)"). reflexivity.
Defined.

Lemma length_lower (s : string) : String.length (lower s) = String.length s.
Proof. induction s as [|c s IH]; [done|]. cbn. by rewrite IH. Qed.

Lemma length_reverse (s : string) : String.length (reverse s) = String.length s.
Proof.
  induction s as [|c s IH]; [done|].
  rewrite reverse_cons, length_append, IH. cbn. lia.
Qed.

Lemma length_drop_while (p : ascii → bool) (s : string) :
  (String.length (drop_while p s) ≤ String.length s)%nat.
Proof.
  induction s as [|c s IH]; [done|]. cbn. destruct (p c); cbn; lia.
Qed.

Lemma length_take_while (p : ascii → bool) (s : string) :
  (String.length (take_while p s) ≤ String.length s)%nat.
Proof.
  induction s as [|c s IH]; [done|]. cbn. destruct (p c); cbn; lia.
Qed.

Lemma length_drop (n : nat) (s : string) :
  (String.length (drop n s) ≤ String.length s)%nat.
Proof.
  revert s. induction n as [|n IH]; intros s; [done|].
  destruct s as [|c s]; [done|]. cbn. specialize (IH s). lia.
Qed.

Lemma length_strip (s : string) : (String.length (strip s) ≤ String.length s)%nat.
Proof.
  unfold strip. rewrite length_reverse.
  etransitivity; [apply length_drop_while|].
  rewrite length_reverse. apply length_drop_while.
Qed.

Lemma all_chars_take_while (p : ascii → bool) (s : string) :
  all_chars p (take_while p s) = true.
Proof.
  induction s as [|c s IH]; [done|]. cbn.
  destruct (p c) eqn:Hc; [|done]. cbn. by rewrite Hc.
Qed.

Lemma literal_length (p s t : string) :
  literal p s = Some t → (String.length t ≤ String.length s)%nat.
Proof.
  unfold literal. destruct (String.prefix p s); [|discriminate].
  intros [= <-]. apply length_drop.
Qed.

Lemma digits_group (s d t : string) :
  digits s = Some (d, t) →
  (d ≠ "" ∧ all_chars is_decimal d = true)
  ∧ (String.length d ≤ String.length s)%nat
  ∧ (String.length t ≤ String.length s)%nat.
Proof.
  unfold digits. pose proof (all_chars_take_while is_decimal s) as Hall.
  pose proof (length_take_while is_decimal s) as Hlen.
  destruct (take_while is_decimal s) as [|c r]; [discriminate|].
  intros [= <- <-]. split; [done|]. split; [done|]. apply length_drop_while.
Qed.

(** The groups the pattern captures are runs of decimal digits taken from
    the text. *)
Lemma rgb_channels_groups (s r g b : string) :
  rgb_channels s = Some (r, g, b) →
  Forall (λ d, (d ≠ "" ∧ all_chars is_decimal d = true)
               ∧ (String.length d ≤ String.length s)%nat) [r; g; b].
Proof.
  unfold rgb_channels, spaces. intros H.
  pose proof (length_drop_while char_isspace s) as L0.
  destruct (literal "(" _) as [s1|] eqn:E1; [|discriminate].
  apply literal_length in E1. cbn [mbind option_bind] in H.
  pose proof (length_drop_while char_isspace s1) as L1.
  destruct (digits (drop_while _ s1)) as [[r' s2]|] eqn:E2; [|discriminate].
  apply digits_group in E2 as (Hr & Lr & L2). cbn [mbind option_bind] in H.
  pose proof (length_drop_while char_isspace s2) as L2'.
  destruct (literal "," (drop_while _ s2)) as [s3|] eqn:E3; [|discriminate].
  apply literal_length in E3. cbn [mbind option_bind] in H.
  pose proof (length_drop_while char_isspace s3) as L3.
  destruct (digits (drop_while _ s3)) as [[g' s4]|] eqn:E4; [|discriminate].
  apply digits_group in E4 as (Hg & Lg & L4). cbn [mbind option_bind] in H.
  pose proof (length_drop_while char_isspace s4) as L4'.
  destruct (literal "," (drop_while _ s4)) as [s5|] eqn:E5; [|discriminate].
  apply literal_length in E5. cbn [mbind option_bind] in H.
  pose proof (length_drop_while char_isspace s5) as L5.
  destruct (digits (drop_while _ s5)) as [[b' s6]|] eqn:E6; [|discriminate].
  apply digits_group in E6 as (Hb & Lb & _). cbn [mbind option_bind] in H.
  injection H as <- <- <-.
  repeat constructor; try tauto; lia.
Qed.

Lemma rgb_match_groups (s r g b : string) :
  rgb_match s = Some (r, g, b) →
  Forall (λ d, (d ≠ "" ∧ all_chars is_decimal d = true)
               ∧ (String.length d ≤ String.length s)%nat) [r; g; b].
Proof.
  unfold rgb_match. destruct (literal "rgb" s) as [s1|] eqn:E1; [|discriminate].
  apply literal_length in E1. cbn [mbind option_bind].
  assert (Hweak : ∀ t, (String.length t ≤ String.length s1)%nat →
            rgb_channels t = Some (r, g, b) →
            Forall (λ d, (d ≠ "" ∧ all_chars is_decimal d = true)
                         ∧ (String.length d ≤ String.length s)%nat) [r; g; b]).
  { intros t Ht Hc. eapply Forall_impl; [exact (rgb_channels_groups _ _ _ _ Hc)|].
    cbn. intros d [? ?]. split; [done|lia]. }
  destruct (literal "a" s1) as [s2|] eqn:E2.
  - apply literal_length in E2.
    destruct (rgb_channels s2) as [[[r' g'] b']|] eqn:E3.
    + intros [= <- <- <-]. by apply (Hweak s2).
    + by apply Hweak.
  - by apply Hweak.
Qed.

Lemma int_raises (L : N) (d : string) :
  d ≠ "" ∧ all_chars is_decimal d = true →
  int L d = None →
  (640 < String.length d)%nat ∧ (0 < L < N.of_nat (String.length d))%N.
Proof.
  intros [Hne Hd]. unfold int. destruct d as [|c d]; [done|].
  rewrite Hd.
  destruct (640 <? _)%N eqn:H1; [|discriminate].
  destruct (0 <? L)%N eqn:H2; [|discriminate].
  destruct (L <? _)%N eqn:H3; [|discriminate].
  intros _. apply N.ltb_lt in H1, H2, H3. lia.
Qed.

(** X19.  [_parse_color] raises only on an [rgb] value one of whose
    channels has more digits than the interpreter converts: the value then
    has more than 640 characters and more than the interpreter's limit,
    which is not 0.  Every other value, every value of at most 640
    characters among them, is answered. *)
Theorem parse_color_raises_only_when_long (L : N) (color_str : string) :
  _parse_color L color_str = None →
  (640 < String.length color_str)%nat
  ∧ (0 < L < N.of_nat (String.length color_str))%N.
Proof.
  unfold _parse_color.
  destruct (startswith _ "#"); [discriminate|].
  destruct (rgb_match (lower (strip color_str))) as [[[r g] b]|] eqn:Hm;
    [|discriminate].
  apply rgb_match_groups in Hm.
  rewrite length_lower in Hm. pose proof (length_strip color_str) as Hs.
  inversion Hm as [|? ? [Hr Lr] Hm1]; subst.
  inversion Hm1 as [|? ? [Hg Lg] Hm2]; subst.
  inversion Hm2 as [|? ? [Hb Lb] _]; subst.
  destruct (int L r) eqn:Er.
  2:{ intros _. destruct (int_raises L r Hr Er). lia. }
  destruct (int L g) eqn:Eg.
  2:{ intros _. destruct (int_raises L g Hg Eg). lia. }
  destruct (int L b) eqn:Eb.
  2:{ intros _. destruct (int_raises L b Hb Eb). lia. }
  discriminate.
Qed.

Lemma parse_color_raises_only_when_long_witness :
  let long := "rgb(" ++ String.concat "" (repeat "1" 641) ++ ",2,3)" in
  (640 < String.length long)%nat ∧ (0 < 640 < N.of_nat (String.length long))%N.
Proof.
  intros long.
  apply (parse_color_raises_only_when_long 640 long).
  vm_compute. reflexivity.
Defined.

(** ** The test mail *)

(** X20.  [send_test_email] answers [True] exactly when the first alert of
    a monitor built from the same configuration would be delivered.  It
    makes one delivery attempt when a mail server is configured and none
    otherwise, in which case, unlike [send_alert], it does not even call
    the sender. *)
Theorem test_mail_predicts_first_alert (cfg : Config) (line : nat → bool) :
  let answer := send_test_email (smtp_server cfg) line in
  (fst answer = true ↔ delivery (email_sender (Prtg.init cfg line)) = Sent)
  ∧ attempts (snd answer)
    = (if enabled (email_sender (Prtg.init cfg line)) then 1 else 0)%nat
  ∧ List.length (alerts (snd answer)) = attempts (snd answer)
  ∧ Forall (λ a, subject a = ("測試伺服器", "https://example.com/test", "測試"))
      (alerts (snd answer)).
Proof.
  cbv zeta. unfold send_test_email, delivery, send_alert, Prtg.init, Email.init.
  cbn [email_sender enabled smtp attempts alerts].
  destruct (truthy (smtp_server cfg)); cbn.
  - destruct (line 0%nat); cbn; (split; [split; done|]);
      repeat split; repeat constructor.
  - split; [split; done|]. repeat split. constructor.
Qed.

(** ** Concrete instances *)

Lemma count_zero_iff_empty_witness :
  count_labels 4300 [] = 0
  ∧ 0 ≤ count_labels 4300 [Demo.el "0"; Demo.stale].
Proof.
  split.
  - apply (count_zero_iff_empty 4300 []). reflexivity.
  - apply (count_zero_iff_empty 4300 [Demo.el "0"; Demo.stale]).
Defined.


Lemma test_mail_predicts_first_alert_witness :
  fst (send_test_email (Some "mail.example") (λ _, true)) = true.
Proof.
  apply (test_mail_predicts_first_alert
           (Demo.cfg [Demo.alpha] (Some "mail.example")) (λ _, true)).
  reflexivity.
Defined.
